(** * The products endpoint of the API gateway, and its read-through contract

    A shallow embedding of [get_products] from [api-gateway/main.py]: the
    handler of [GET /products], which reads a Redis cache, falls back to a
    PostgreSQL query, writes the query's result back to the cache, and
    fabricates mock products when the database cannot be used.

    The handler is a sequence of Python statements with [try]/[except],
    an [async with] block and an early [return].  It is modelled in a small
    statement monad whose computations end in one of three signals: fall
    through to the next statement, return from the function, or raise.

    The other endpoints of the file ([/test-db], [/test-redis],
    [/test-http], [/order], [/error-test]) follow, as functions from what
    their collaborators do to what the handler answers.

    The libraries the handler calls are parameters, gathered in the class
    [Runtime].  For the two claims on what comes back from the cache the
    JSON library is modelled as the module [Json], whose reader is proved
    to undo its writer on the lists of records the handler caches. *)

From Stdlib Require Import ZArith PrimFloat FloatOps SpecFloat FloatAxioms Ascii String.
From stdpp Require Import base option list gmap strings pretty.

Open Scope Z_scope.
#[local] Set Warnings "-register-all".

(** ** Python values

    The values the handler builds and the values [json.loads] can produce.
    A [dict] keeps its insertion order, which [json.dumps] follows, so it is
    an association list. *)

Inductive pyval : Type :=
  | PNone
  | PBool (b : bool)
  | PInt (z : Z)
  | PFloat (f : float)
  | PStr (s : string)
  | PList (l : list pyval)
  | PDict (d : list (string * pyval)).

(** Exceptions the collaborators raise.  All of them derive from Python's
    [Exception], which is what every [except Exception] clause of the handler
    catches; [BaseException]s that are not [Exception]s (task cancellation,
    interpreter exit) are outside the model. *)

Inductive exn : Type :=
  | RedisError
  | JSONDecodeError
  | PostgresError
  | InterfaceError.

(** ** What the handler takes from its libraries

    [json], [random], [datetime] and the value the database driver hands
    back for a numeric column are not code of the gateway.  They are the
    parameters of the development. *)

Class Runtime : Type := {
  (** [json.dumps] on a value of [pyval]; it cannot fail on these. *)
  json_dumps : pyval -> string;
  (** [json.loads]; [None] stands for [json.JSONDecodeError]. *)
  json_loads : string -> option pyval;
  (** [datetime.isoformat] of a clock reading. *)
  isoformat : Z -> string;
  (** The state of the [random] module and its two draws. *)
  rng : Type;
  random_randint : Z -> Z -> rng -> Z * rng;
  random_uniform : Z -> Z -> rng -> float * rng;
  (** [round(x, ndigits)]. *)
  round_ndigits : float -> Z -> float;
  (** The driver's value for a numeric column, with Python's [bool()] and
      [float()] on it. *)
  numeric : Type;
  numeric_bool : numeric -> bool;
  numeric_float : numeric -> float
}.

(** The literal [0.9]: the binary64 number nearest to nine tenths. *)
Definition float_0_9 : float := 0x1.ccccccccccccdp-1%float.

(** ** String formatting *)

(** [str(n)] and [f"{n}"] for an [int]. *)
Definition str_int (n : Z) : string := pretty n.

(** [f"{i:03d}"]: sign first, then zeros up to a total width of three. *)
Definition format_03d (i : Z) : string :=
  let digits := pretty (Z.abs i) in
  let sign := if decide (i < 0) then "-" else "" in
  let width := (String.length sign + String.length digits)%nat in
  sign +:+ String.concat "" (replicate (3 - width)%nat "0") +:+ digits.

(** [f"products:list:{limit}"] *)
Definition cache_key (limit : Z) : string := "products:list:" +:+ str_int limit.

(** [range(start, stop)] *)
Definition py_range (start stop : Z) : list Z := seqZ start (stop - start).

(** Truthiness of an optional string, as in [if cached_data:]. *)
Definition str_truthy (s : option string) : bool :=
  match s with
  | Some s => negb (String.eqb s "")
  | None => false
  end.

(** Lookup of a key in a [dict]. *)
Fixpoint dict_get (k : string) (d : list (string * pyval)) : option pyval :=
  match d with
  | [] => None
  | (k', v) :: d' => if String.eqb k k' then Some v else dict_get k d'
  end.

(** [len] of a value, where it has one. *)
Definition py_len (v : pyval) : option nat :=
  match v with
  | PList l => Some (length l)
  | PDict d => Some (length d)
  | PStr s => Some (String.length s)
  | _ => None
  end.

(** [float(n)] for an [int]: the nearest binary64 number, ties to even. *)
Definition float_of_int (n : Z) : float :=
  SF2Prim (binary_normalize prec emax n 0 false).

(** [float(v)] for a number. *)
Definition py_float (v : pyval) : option float :=
  match v with
  | PInt n => Some (float_of_int n)
  | PFloat f => Some f
  | _ => None
  end.

(** ** The world of a request *)

(** A row of [inventory.products] as [conn.fetch] yields it.  [price] may
    be [NULL]. *)
Record row `{Runtime} : Type := {
  row_id : Z;
  row_sku : string;
  row_name : string;
  row_stock_level : Z;
  row_price : option numeric
}.

(** The Redis client during one request: whether [get] and [setex] reach
    the server. *)
Record redis : Type := {
  get_error : option exn;
  setex_error : option exn
}.

(** The connection pool during one request: whether a connection can be
    acquired, what the query yields, whether the connection can be given
    back at the end of the [async with] block. *)
Record pool `{Runtime} : Type := {
  acquire_error : option exn;
  fetch : Z -> exn + list row;
  release_error : option exn
}.

(** The module's globals; [None] where [lifespan] could not connect. *)
Record globals `{Runtime} : Type := {
  redis_client : option redis;
  db_pool : option pool
}.

(** The dictionary [result] of the handler, which is also its response. *)
Record response : Type := {
  products : pyval;
  source : string;
  cached : bool;
  timestamp : string
}.

(** What the handler asks of its collaborators, in order. *)
Inductive event : Type :=
  | RedisGet (key : string)
  | RedisSetex (key : string) (ttl : Z) (value : string)
  | PoolAcquire
  | ConnFetch (limit : Z)
  | PoolRelease
  | LogWarning (message : string) (e : exn)
  | LogError (message : string) (e : exn).

(** The world outside the handler: the Redis server's keys with their values
    and expiry times, the state of [random], and the collaborator calls made
    so far. *)
Record world `{Runtime} : Type := {
  redis_db : gmap string (string * Z);
  random_state : rng;
  trace : list event
}.

(** What a running handler works on: the world and its local [result]. *)
Record frame `{Runtime} : Type := {
  env : world;
  result : response
}.

(** ** Statements *)

Inductive signal (A : Type) : Type :=
  | Next (a : A)
  | Return (r : response)
  | Raise (e : exn).
Arguments Next {A} a.
Arguments Return {A} r.
Arguments Raise {A} e.

(** How a call of the handler ends for its caller. *)
Inductive outcome : Type :=
  | Returned (r : response)
  | ReturnedNone
  | Raised (e : exn).

Section Handler.
Context `{RT : Runtime}.

Definition stmt (A : Type) : Type := frame -> signal A * frame.

Definition pure {A} (a : A) : stmt A := fun fr => (Next a, fr).

Definition seq_bind {A B} (m : stmt A) (k : A -> stmt B) : stmt B :=
  fun fr =>
    match m fr with
    | (Next a, fr') => k a fr'
    | (Return r, fr') => (Return r, fr')
    | (Raise e, fr') => (Raise e, fr')
    end.

#[export] Instance stmt_ret : MRet stmt := @pure.
#[export] Instance stmt_bind : MBind stmt := fun A B k m => seq_bind m k.

Definition raise {A} (e : exn) : stmt A := fun fr => (Raise e, fr).

(** [pass], and the end of a block. *)
Definition skip : stmt unit := mret tt.

(** [return result] *)
Definition return_result : stmt unit := fun fr => (Return (result fr), fr).

(** [try: body  except Exception as e: handler] *)
Definition try_except {A} (body : stmt A) (handler : exn -> stmt A) : stmt A :=
  fun fr =>
    match body fr with
    | (Raise e, fr') => handler e fr'
    | other => other
    end.

Definition with_world {A} (f : world -> A * world) : stmt A :=
  fun fr => let '(a, w) := f (env fr) in (Next a, {| env := w; result := result fr |}).

(** The world after some more collaborator calls were noted. *)
Definition logged (evs : list event) (w : world) : world :=
  {| redis_db := redis_db w; random_state := random_state w; trace := trace w ++ evs |}.

Definition emit (ev : event) : stmt unit :=
  with_world (fun w => (tt, logged [ev] w)).

Definition assign_result (f : response -> response) : stmt unit :=
  fun fr => (Next tt, {| env := env fr; result := f (result fr) |}).

Definition set_products (v : pyval) (r : response) : response :=
  {| products := v; source := source r; cached := cached r; timestamp := timestamp r |}.
Definition set_source (s : string) (r : response) : response :=
  {| products := products r; source := s; cached := cached r; timestamp := timestamp r |}.
Definition set_cached (b : bool) (r : response) : response :=
  {| products := products r; source := source r; cached := b; timestamp := timestamp r |}.

(** *** Collaborators *)

(** What the server answers to [GET key] at time [now]: the value, unless
    the key is absent or its time to live has run out. *)
Definition redis_lookup (db : gmap string (string * Z)) (now : Z) (key : string)
  : option string :=
  match db !! key with
  | Some (v, expiry) => if decide (now < expiry) then Some v else None
  | None => None
  end.

(** [redis_client.get(key)] *)
Definition redis_get (c : redis) (now : Z) (key : string) : stmt (option string) :=
  emit (RedisGet key);;
  match get_error c with
  | Some e => raise e
  | None => with_world (fun w => (redis_lookup (redis_db w) now key, w))
  end.

(** [redis_client.setex(key, ttl, value)] *)
Definition redis_setex (c : redis) (now : Z) (key : string) (ttl : Z) (value : string)
  : stmt unit :=
  emit (RedisSetex key ttl value);;
  match setex_error c with
  | Some e => raise e
  | None =>
      with_world (fun w => (tt, {| redis_db := <[key := (value, now + ttl)]> (redis_db w);
                                   random_state := random_state w;
                                   trace := trace w |}))
  end.

(** [async with db_pool.acquire() as conn: body].  The connection is given
    back when the block is left, also when the body raised; an exception of
    the release is raised from the block. *)
Definition async_with_acquire {A} (p : pool) (body : stmt A) : stmt A :=
  emit PoolAcquire;;
  match acquire_error p with
  | Some e => raise e
  | None => fun fr =>
      let '(sig, fr1) := body fr in
      let '(_, fr2) := emit PoolRelease fr1 in
      match release_error p with
      | Some e => (Raise e, fr2)
      | None => (sig, fr2)
      end
  end.

(** [await conn.fetch("SELECT ... LIMIT $1", limit)] *)
Definition conn_fetch (p : pool) (limit : Z) : stmt (list row) :=
  emit (ConnFetch limit);;
  match fetch p limit with
  | inl e => raise e
  | inr rows => mret rows
  end.

(** [json.loads(s)] *)
Definition loads (s : string) : stmt pyval :=
  match json_loads s with
  | Some v => mret v
  | None => raise JSONDecodeError
  end.

Definition randint (a b : Z) : stmt Z :=
  with_world (fun w =>
    let '(n, g) := random_randint a b (random_state w) in
    (n, {| redis_db := redis_db w; random_state := g; trace := trace w |})).

Definition uniform (a b : Z) : stmt float :=
  with_world (fun w =>
    let '(x, g) := random_uniform a b (random_state w) in
    (x, {| redis_db := redis_db w; random_state := g; trace := trace w |})).

(** [[f(x) for x in xs]] for an [f] with effects. *)
Fixpoint comprehension {A B} (f : A -> stmt B) (xs : list A) : stmt (list B) :=
  match xs with
  | [] => mret []
  | x :: xs' => y ← f x; ys ← comprehension f xs'; mret (y :: ys)
  end.

(** ** The handler *)

(** The dictionary built for a row of the query (lines 361-369). *)
Definition product_of_row (p : row) : pyval :=
  PDict
    [ ("id", PStr (str_int (row_id p)));
      ("sku", PStr (row_sku p));
      ("name", PStr (row_name p));
      ("stock_level", PInt (row_stock_level p));
      ("price",
        match row_price p with
        | Some d => if numeric_bool d then PFloat (numeric_float d) else PInt 0
        | None => PInt 0
        end);
      ("discounted_price",
        match row_price p with
        | Some d =>
            if numeric_bool d then PFloat (PrimFloat.mul (numeric_float d) float_0_9)
            else PInt 0
        | None => PInt 0
        end) ].

(** The dictionary of one mock product (lines 392-399 and 406-413), given
    its three draws. *)
Definition mock_dict (i stock : Z) (price discounted : float) : pyval :=
  PDict
    [ ("id", PStr ("mock-" +:+ str_int i));
      ("sku", PStr ("MOCK-" +:+ format_03d i));
      ("name", PStr ("Mock Product " +:+ str_int i));
      ("stock_level", PInt stock);
      ("price", PFloat (round_ndigits price 2));
      ("discounted_price", PFloat (round_ndigits discounted 2)) ].

Definition mock_product (i : Z) : stmt pyval :=
  stock ← randint 0 100;
  price ← uniform 10 1000;
  discounted ← uniform 9 900;
  mret (mock_dict i stock price discounted).

(** The mock fallback, which the source writes out twice: in the [except]
    clause of the database block (lines 391-402) and in the [else] of
    [if db_pool] (lines 405-416). *)
Definition mock_fallback (limit : Z) : stmt unit :=
  mocks ← comprehension mock_product (py_range 1 (Z.min (limit + 1) 6));
  assign_result (set_products (PList mocks));;
  assign_result (set_source "mock").

(** Lines 336-347: [if redis_client: try: ... except Exception]. *)
Definition try_cache_first (g : globals) (now limit : Z) : stmt unit :=
  match redis_client g with
  | Some rc =>
      try_except
        (let cache_key := cache_key limit in
         cached_data ← redis_get rc now cache_key;
         match cached_data with
         | Some s =>
             if str_truthy cached_data then
               v ← loads s;
               assign_result (set_products v);;
               assign_result (set_source "cache");;
               assign_result (set_cached true);;
               return_result
             else skip
         | None => skip
         end)
        (fun e => emit (LogWarning "Cache read failed" e))
  | None => skip
  end.

(** Lines 376-386: [if redis_client and product_list: try: setex ...]. *)
Definition cache_the_result (g : globals) (now limit : Z) (product_list : list pyval)
  : stmt unit :=
  match redis_client g, product_list with
  | Some rc, _ :: _ =>
      try_except
        (let cache_key := cache_key limit in
         redis_setex rc now cache_key 300 (json_dumps (PList product_list)))
        (fun e => emit (LogWarning "Cache write failed" e))
  | _, _ => skip
  end.

(** Lines 350-416: [if db_pool: try: async with ... except ... else: ...]. *)
Definition fetch_from_database (g : globals) (now limit : Z) : stmt unit :=
  match db_pool g with
  | Some p =>
      try_except
        (async_with_acquire p
           (rows ← conn_fetch p limit;
            let product_list := map product_of_row rows in
            assign_result (set_products (PList product_list));;
            cache_the_result g now limit product_list))
        (fun e =>
           emit (LogError "Database error" e);;
           mock_fallback limit)
  | None => mock_fallback limit
  end.

(** The body of [get_products], run on a fresh [result] (lines 328-333). *)
Definition get_products_body (g : globals) (now limit : Z) : stmt unit :=
  try_cache_first g now limit;;
  fetch_from_database g now limit;;
  return_result.

Definition initial_result (now : Z) : response :=
  {| products := PList []; source := "database"; cached := false;
     timestamp := isoformat now |}.

(** A call of a function with the given body: what its caller gets, and
    the world it leaves. *)
Definition call (body : stmt unit) (fr : frame) : outcome * world :=
  match body fr with
  | (Return r, fr') => (Returned r, env fr')
  | (Next _, fr') => (ReturnedNone, env fr')
  | (Raise e, fr') => (Raised e, env fr')
  end.

(** [await get_products(limit)] at clock reading [now]. *)
Definition get_products (g : globals) (now limit : Z) (w : world) : outcome * world :=
  call (get_products_body g now limit) {| env := w; result := initial_result now |}.

(** The same call entered at line 349, past the cache read: what is left
    of the handler once the cache did not answer. *)
Definition get_products_from_store (g : globals) (now limit : Z) (w : world)
  : outcome * world :=
  call (fetch_from_database g now limit;; return_result)
       {| env := w; result := initial_result now |}.

End Handler.



(** ** Observations on a call

    The notions the properties below are stated with. *)

Section Observations.
Context `{RT : Runtime}.

(** The cache writes among some collaborator calls: key, time to live and
    value of every [setex], in order. *)
Fixpoint cache_writes (evs : list event) : list (string * Z * string) :=
  match evs with
  | [] => []
  | RedisSetex key ttl value :: evs' => (key, ttl, value) :: cache_writes evs'
  | _ :: evs' => cache_writes evs'
  end.

(** The ways the cache read of lines 336-347 can go. *)
Inductive cache_read : Type :=
  | CacheUnavailable
  | CacheReadFailed (e : exn)
  | CacheMiss
  | CacheCorrupt (s : string)
  | CacheHit (s : string) (v : pyval).

Definition probe_cache (g : globals) (now limit : Z) (w : world) : cache_read :=
  match redis_client g with
  | None => CacheUnavailable
  | Some rc =>
      match get_error rc with
      | Some e => CacheReadFailed e
      | None =>
          match redis_lookup (redis_db w) now (cache_key limit) with
          | None => CacheMiss
          | Some s =>
              if str_truthy (Some s) then
                match json_loads s with
                | Some v => CacheHit s v
                | None => CacheCorrupt s
                end
              else CacheMiss
          end
      end
  end.

(** The value the cache read answers the request with, if it does. *)
Definition cache_hit (g : globals) (now limit : Z) (w : world) : option pyval :=
  match probe_cache g now limit w with
  | CacheHit _ v => Some v
  | _ => None
  end.

(** The world after the cache read. *)
Definition after_cache_read (g : globals) (now limit : Z) (w : world) : world :=
  match probe_cache g now limit w with
  | CacheUnavailable => w
  | CacheReadFailed e =>
      logged [RedisGet (cache_key limit); LogWarning "Cache read failed" e] w
  | CacheMiss | CacheHit _ _ => logged [RedisGet (cache_key limit)] w
  | CacheCorrupt _ =>
      logged [RedisGet (cache_key limit); LogWarning "Cache read failed" JSONDecodeError] w
  end.

(** The world after the write-back of lines 376-386. *)
Definition after_write_back (g : globals) (now limit : Z) (product_list : list pyval)
    (w : world) : world :=
  match redis_client g, product_list with
  | Some rc, _ :: _ =>
      let key := cache_key limit in
      let value := json_dumps (PList product_list) in
      match setex_error rc with
      | Some e => logged [RedisSetex key 300 value; LogWarning "Cache write failed" e] w
      | None =>
          {| redis_db := <[key := (value, now + 300)]> (redis_db w);
             random_state := random_state w;
             trace := trace w ++ [RedisSetex key 300 value] |}
      end
  | _, _ => w
  end.

(** The write-back that lines 376-386 attempt for a product list: none
    without a client or for an empty list. *)
Definition attempted_write_back (g : globals) (limit : Z) (product_list : list pyval)
  : list (string * Z * string) :=
  match redis_client g, product_list with
  | Some _, _ :: _ => [(cache_key limit, 300, json_dumps (PList product_list))]
  | _, _ => []
  end.

(** A product dictionary whose [discounted_price] is its [price] times
    [0.9], in Python's arithmetic on numbers. *)
Definition discount_applied (product : pyval) : Prop :=
  match product with
  | PDict d =>
      exists price discounted x,
        dict_get "price" d = Some price
        /\ dict_get "discounted_price" d = Some discounted
        /\ py_float price = Some x
        /\ py_float discounted = Some (PrimFloat.mul x float_0_9)
  | _ => False
  end.

(** The query of lines 352-358 gave [rows]: a connection was acquired and
    [conn.fetch] returned them. *)
Definition store_yields (g : globals) (limit : Z) (rows : list row) : Prop :=
  exists p, db_pool g = Some p
            /\ acquire_error p = None
            /\ fetch p limit = inr rows.

(** The store read went through: the query gave [rows] and the connection
    was given back, so that the [async with] block was left normally. *)
Definition store_read_succeeds (g : globals) (limit : Z) (rows : list row) : Prop :=
  exists p, db_pool g = Some p
            /\ acquire_error p = None
            /\ fetch p limit = inr rows
            /\ release_error p = None.

(** The ways the store read of lines 350-389 can go: no pool; an
    exception before any row was obtained (from acquiring, from the query,
    or from giving the connection back after a failed query); rows
    obtained but the connection could not be given back; rows obtained and
    the block left normally. *)
Inductive store_read : Type :=
  | StoreUnavailable
  | StoreFailed (e : exn)
  | StoreLost (rows : list row) (e : exn)
  | StoreRows (rows : list row).

Definition probe_store (g : globals) (limit : Z) : store_read :=
  match db_pool g with
  | None => StoreUnavailable
  | Some p =>
      match acquire_error p with
      | Some e => StoreFailed e
      | None =>
          match fetch p limit, release_error p with
          | inl e, None => StoreFailed e
          | inl _, Some e' => StoreFailed e'
          | inr rows, Some e' => StoreLost rows e'
          | inr rows, None => StoreRows rows
          end
      end
  end.

(** The world after the database block, before any mock is drawn. *)
Definition after_store_read (g : globals) (now limit : Z) (w : world) : world :=
  match db_pool g with
  | None => w
  | Some p =>
      match acquire_error p with
      | Some e => logged [PoolAcquire; LogError "Database error" e] w
      | None =>
          match fetch p limit with
          | inl e =>
              logged [PoolAcquire; ConnFetch limit; PoolRelease;
                      LogError "Database error" (default e (release_error p))] w
          | inr rows =>
              let w1 :=
                logged [PoolRelease]
                  (after_write_back g now limit (map product_of_row rows)
                     (logged [PoolAcquire; ConnFetch limit] w)) in
              match release_error p with
              | Some e => logged [LogError "Database error" e] w1
              | None => w1
              end
          end
      end
  end.

(** The mock products as a function of the generator alone. *)
Definition draw_mock (i : Z) (seed : rng) : pyval * rng :=
  let '(stock, seed1) := random_randint 0 100 seed in
  let '(price, seed2) := random_uniform 10 1000 seed1 in
  let '(discounted, seed3) := random_uniform 9 900 seed2 in
  (mock_dict i stock price discounted, seed3).

Fixpoint draw_mocks (xs : list Z) (seed : rng) : list pyval * rng :=
  match xs with
  | [] => ([], seed)
  | x :: xs' =>
      let '(y, seed1) := draw_mock x seed in
      let '(ys, seed2) := draw_mocks xs' seed1 in
      (y :: ys, seed2)
  end.

(** The world with another state of [random]. *)
Definition reseeded (seed : rng) (w : world) : world :=
  {| redis_db := redis_db w; random_state := seed; trace := trace w |}.

(** The world with a key of the cache gone. *)
Definition forgotten (key : string) (w : world) : world :=
  {| redis_db := delete key (redis_db w); random_state := random_state w;
     trace := trace w |}.

(** The three responses of the handler. *)
Definition cache_response (now : Z) (v : pyval) : response :=
  {| products := v; source := "cache"; cached := true; timestamp := isoformat now |}.

Definition database_response (now : Z) (rows : list row) : response :=
  {| products := PList (map product_of_row rows); source := "database"; cached := false;
     timestamp := isoformat now |}.

Definition mock_response (now : Z) (mocks : list pyval) : response :=
  {| products := PList mocks; source := "mock"; cached := false;
     timestamp := isoformat now |}.

End Observations.

(** ** A reference runtime

    A small stand-in for the libraries, on which the handler can be run:
    a JSON writer and reader for [pyval], a linear congruential generator
    for [random], whole numbers for the driver's numeric values and the
    count of seconds for the clock's text.  The writer prints a float by
    its exact decimal expansion and escapes only the quote and the
    backslash; the reader takes what the writer prints. *)

Module Reference.

Definition quote : ascii := "034"%char.
Definition backslash : ascii := "\"%char.

(** The binary64 number nearest to [n / 10^k], ties to even. *)
Definition float_of_decimal (negative : bool) (n : Z) (k : nat) : float :=
  let d := 10 ^ Z.of_nat k in
  let s := 64 + 4 * Z.of_nat k in
  let q := (n * 2 ^ s) / d in
  let r := (n * 2 ^ s) mod d in
  let loc := if r =? 0 then loc_Exact else loc_Inexact (Z.compare (2 * r) d) in
  SF2Prim (binary_round_aux prec emax negative q (- s) loc).

Fixpoint strip_zeros (rev_digits : list ascii) : list ascii :=
  match rev_digits with
  | c :: cs => if Ascii.eqb c "0" then strip_zeros cs else rev_digits
  | [] => []
  end.

Definition float_repr (f : float) : string :=
  match Prim2SF f with
  | S754_nan => "NaN"
  | S754_infinity s => if s then "-Infinity" else "Infinity"
  | S754_zero s => if s then "-0.0" else "0.0"
  | S754_finite s m e =>
      let sign := if s then "-" else "" in
      if 0 <=? e then sign +:+ pretty (Zpos m * 2 ^ e) +:+ ".0"
      else
        let k := Z.to_nat (- e) in
        let digits := list_ascii_of_string (pretty (Zpos m * 5 ^ (- e))) in
        let padded := replicate (S k - length digits) "0"%char ++ digits in
        let cut := (length padded - k)%nat in
        let fraction := rev (strip_zeros (rev (drop cut padded))) in
        sign +:+ string_of_list_ascii (take cut padded) +:+ "."
          +:+ string_of_list_ascii (match fraction with [] => ["0"%char] | _ => fraction end)
  end.

Fixpoint escape (s : string) : string :=
  match s with
  | EmptyString => EmptyString
  | String c s' =>
      if Ascii.eqb c quote || Ascii.eqb c backslash
      then String backslash (String c (escape s'))
      else String c (escape s')
  end.

Definition quoted (s : string) : string :=
  String quote (escape s) +:+ String quote EmptyString.

Fixpoint dumps (v : pyval) : string :=
  match v with
  | PNone => "null"
  | PBool b => if b then "true" else "false"
  | PInt z => pretty z
  | PFloat f => float_repr f
  | PStr s => quoted s
  | PList l => "[" +:+ String.concat ", " (map dumps l) +:+ "]"
  | PDict d =>
      "{" +:+ String.concat ", " (map (fun kv => quoted (fst kv) +:+ ": " +:+ dumps (snd kv)) d)
        +:+ "}"
  end.

Definition is_space (c : ascii) : bool :=
  Ascii.eqb c " " || Ascii.eqb c "009" || Ascii.eqb c "010" || Ascii.eqb c "013".

Fixpoint skip_ws (cs : list ascii) : list ascii :=
  match cs with
  | c :: cs' => if is_space c then skip_ws cs' else cs
  | [] => []
  end.

Fixpoint after (literal cs : list ascii) : option (list ascii) :=
  match literal, cs with
  | [], _ => Some cs
  | l :: literal', c :: cs' => if Ascii.eqb l c then after literal' cs' else None
  | _ :: _, [] => None
  end.

Definition digit_value (c : ascii) : option Z :=
  let n := Z.of_N (N_of_ascii c) in
  if (48 <=? n) && (n <=? 57) then Some (n - 48) else None.

Fixpoint read_digits (cs : list ascii) (acc : Z) (count : nat) : Z * nat * list ascii :=
  match cs with
  | c :: cs' =>
      match digit_value c with
      | Some d => read_digits cs' (10 * acc + d) (S count)
      | None => (acc, count, cs)
      end
  | [] => (acc, count, [])
  end.

Definition read_number (cs : list ascii) : option (pyval * list ascii) :=
  let '(negative, cs1) :=
    match after ["-"%char] cs with Some r => (true, r) | None => (false, cs) end in
  let '(n, count, cs2) := read_digits cs1 0 0 in
  match count with
  | O => None
  | S _ =>
      match after ["."%char] cs2 with
      | Some cs3 =>
          let '(m, k, cs4) := read_digits cs3 n 0 in
          match k with
          | O => None
          | S _ => Some (PFloat (float_of_decimal negative m k), cs4)
          end
      | None => Some (PInt (if negative then - n else n), cs2)
      end
  end.

Fixpoint read_string (cs : list ascii) : option (string * list ascii) :=
  match cs with
  | [] => None
  | c :: cs' =>
      if Ascii.eqb c quote then Some (EmptyString, cs')
      else if Ascii.eqb c backslash then
        match cs' with
        | e :: cs'' =>
            if Ascii.eqb e quote || Ascii.eqb e backslash
            then match read_string cs'' with
                 | Some (s, r) => Some (String e s, r)
                 | None => None
                 end
            else None
        | [] => None
        end
      else match read_string cs' with
           | Some (s, r) => Some (String c s, r)
           | None => None
           end
  end.

Definition chars (s : string) : list ascii := list_ascii_of_string s.

Fixpoint read_value (fuel : nat) (cs : list ascii) {struct fuel}
  : option (pyval * list ascii) :=
  match fuel with
  | O => None
  | S fuel' =>
      let cs := skip_ws cs in
      match after (chars "null") cs with Some r => Some (PNone, r) | None =>
      match after (chars "true") cs with Some r => Some (PBool true, r) | None =>
      match after (chars "false") cs with Some r => Some (PBool false, r) | None =>
      match after (chars "NaN") cs with Some r => Some (PFloat nan, r) | None =>
      match after (chars "Infinity") cs with Some r => Some (PFloat infinity, r) | None =>
      match after (chars "-Infinity") cs with Some r => Some (PFloat neg_infinity, r) | None =>
      match after [quote] cs with
      | Some r => '(s, r') ← read_string r; Some (PStr s, r')
      | None =>
      match after (chars "[") cs with
      | Some r =>
          match after (chars "]") (skip_ws r) with
          | Some r' => Some (PList [], r')
          | None => '(l, r') ← read_elements fuel' r; Some (PList l, r')
          end
      | None =>
      match after (chars "{") cs with
      | Some r =>
          match after (chars "}") (skip_ws r) with
          | Some r' => Some (PDict [], r')
          | None => '(d, r') ← read_members fuel' r; Some (PDict d, r')
          end
      | None => read_number cs
      end end end end end end end end end
  end
with read_elements (fuel : nat) (cs : list ascii) {struct fuel}
  : option (list pyval * list ascii) :=
  match fuel with
  | O => None
  | S fuel' =>
      '(v, r) ← read_value fuel' cs;
      let r := skip_ws r in
      match after (chars ",") r with
      | Some r' => '(l, r'') ← read_elements fuel' r'; Some (v :: l, r'')
      | None =>
          match after (chars "]") r with
          | Some r' => Some ([v], r')
          | None => None
          end
      end
  end
with read_members (fuel : nat) (cs : list ascii) {struct fuel}
  : option (list (string * pyval) * list ascii) :=
  match fuel with
  | O => None
  | S fuel' =>
      r0 ← after [quote] (skip_ws cs);
      '(k, r1) ← read_string r0;
      r2 ← after (chars ":") (skip_ws r1);
      '(v, r3) ← read_value fuel' r2;
      let r3 := skip_ws r3 in
      match after (chars ",") r3 with
      | Some r' => '(d, r'') ← read_members fuel' r'; Some ((k, v) :: d, r'')
      | None =>
          match after (chars "}") r3 with
          | Some r' => Some ([(k, v)], r')
          | None => None
          end
      end
  end.

Definition loads (s : string) : option pyval :=
  let cs := chars s in
  '(v, r) ← read_value (S (2 * length cs)) cs;
  match skip_ws r with
  | [] => Some v
  | _ :: _ => None
  end.


(** [round(x, ndigits)] by scaling, rounding to the nearest whole number
    (ties to even) and scaling back. *)
Definition nearest_int (x : float) : Z :=
  match Prim2SF x with
  | S754_finite s m e =>
      let n :=
        if 0 <=? e then Zpos m * 2 ^ e
        else
          let d := 2 ^ (- e) in
          let q := Zpos m / d in
          match Z.compare (2 * (Zpos m mod d)) d with
          | Lt => q
          | Eq => if Z.even q then q else q + 1
          | Gt => q + 1
          end in
      if s then - n else n
  | _ => 0
  end.

Definition round_to (x : float) (ndigits : Z) : float :=
  let scale := float_of_int (10 ^ ndigits) in
  PrimFloat.div (float_of_int (nearest_int (PrimFloat.mul x scale))) scale.

Definition next_seed (seed : Z) : Z := (1103515245 * seed + 12345) mod 2147483648.

Definition runtime : Runtime := {|
  json_dumps := dumps;
  json_loads := loads;
  isoformat := fun now => pretty now;
  rng := Z;
  random_randint := fun a b seed => (a + seed mod (b - a + 1), next_seed seed);
  random_uniform := fun a b seed =>
    (PrimFloat.add (float_of_int a)
       (PrimFloat.mul (PrimFloat.div (float_of_int (seed mod 1000)) (float_of_int 1000))
                      (float_of_int (b - a))),
     next_seed seed);
  round_ndigits := round_to;
  numeric := Z;
  numeric_bool := fun n => negb (n =? 0);
  numeric_float := float_of_int
|}.

(** A Redis client and a pool without faults, and a table of three
    products, the last one without a price. *)
Definition healthy_redis : redis := {| get_error := None; setex_error := None |}.

Definition three_rows : list (@row runtime) :=
  [ @Build_row runtime 1 "SKU-001" "Widget" 7 (Some 10);
    @Build_row runtime 2 "SKU-002" "Gadget" 0 (Some 25);
    @Build_row runtime 3 "SKU-003" "Gizmo" 12 None ].

Definition pool_of (rows : list (@row runtime)) : @pool runtime :=
  @Build_pool runtime None
    (fun limit => if limit <? 0 then inl PostgresError else inr (take (Z.to_nat limit) rows))
    None.

Definition healthy : @globals runtime :=
  {| redis_client := Some healthy_redis; db_pool := Some (pool_of three_rows) |}.

Definition empty_table : @globals runtime :=
  {| redis_client := Some healthy_redis; db_pool := Some (pool_of []) |}.

Definition no_database : @globals runtime :=
  {| redis_client := Some healthy_redis; db_pool := None |}.

Definition nothing_connected : @globals runtime :=
  {| redis_client := None; db_pool := None |}.

(** The pool whose connection is lost after the query: giving it back
    fails. *)
Definition release_fails : @globals runtime :=
  {| redis_client := Some healthy_redis;
     db_pool := Some (@Build_pool runtime None (fetch (pool_of three_rows))
                                   (Some InterfaceError)) |}.

Definition empty_world : @world runtime :=
  @Build_world runtime ∅ 42 [].

(** A world whose cache holds [value] under the key of [limit], until
    [expiry]. *)
Definition world_with (limit : Z) (value : string) (expiry : Z) : @world runtime :=
  @Build_world runtime {[ cache_key limit := (value, expiry) ]} 42 [].

(** The response of a call that returned one. *)
Definition response_of (o : outcome) : response :=
  match o with
  | Returned r => r
  | _ => {| products := PNone; source := ""; cached := false; timestamp := "" |}
  end.

End Reference.

(** ** The JSON codec

    Modelled from the spec: [json.dumps] and [json.loads] are Python's
    library, not code of the gateway; the spec says of them only that the
    cache holds the "serialized list of ProductRecord", that a hit is
    deserialized, and that what was written must deserialize to the
    identical list.  This is a JSON writer and reader in the library's
    format.  The writer puts [", "] and [": "] between items, writes
    strings in double quotes with the escapes of [ensure_ascii] (the quote,
    the backslash, the short forms of backspace, tab, line feed, form feed
    and carriage return, and [\u00XX] for every other character outside
    the printable ASCII range), whole numbers in decimal, and [NaN],
    [Infinity] and [-Infinity].  A string is a sequence of characters with
    codes below 256.  A finite float is written by its exact decimal
    value, where Python writes the shortest decimal that reads back as the
    same float.  The reader takes a decimal, with a fraction part, an
    exponent part, both or neither, to an [int] when it has neither and
    otherwise to the nearest float, ties to even, as Python does. *)

Module Json.

Definition quote : ascii := "034"%char.
Definition backslash : ascii := "\"%char.
Definition chars (s : string) : list ascii := list_ascii_of_string s.

(** *** Writing *)

Definition digit (d : Z) : ascii := ascii_of_N (Z.to_N (48 + d)).

(** The last [k] decimal digits of [x]. *)
Fixpoint digits_fixed (k : nat) (x : Z) : list ascii :=
  match k with
  | O => []
  | S k' => digits_fixed k' (x / 10) ++ [digit (x mod 10)]
  end.

(** The number of decimal digits of [x], at most [S fuel]. *)
Fixpoint width (fuel : nat) (x : Z) : nat :=
  match fuel with
  | O => 1%nat
  | S fuel' => if x <? 10 then 1%nat else S (width fuel' (x / 10))
  end.

(** A natural number in decimal, without leading zeros. *)
Definition decimal (x : Z) : list ascii :=
  digits_fixed (width (Z.to_nat (Z.log2 x)) x) x.

Definition write_int (z : Z) : list ascii :=
  if z <? 0 then "-"%char :: decimal (- z) else decimal z.

Definition write_float (f : float) : list ascii :=
  match Prim2SF f with
  | S754_nan => chars "NaN"
  | S754_infinity s => if s then chars "-Infinity" else chars "Infinity"
  | S754_zero s => if s then chars "-0.0" else chars "0.0"
  | S754_finite s m e =>
      (if s then ["-"%char] else []) ++
      (if 0 <=? e then decimal (Zpos m * 2 ^ e) ++ chars ".0"
       else
         let n := Zpos m * 5 ^ (- e) in
         decimal (n / 10 ^ (- e))
           ++ "."%char :: digits_fixed (Z.to_nat (- e)) (n mod 10 ^ (- e)))
  end.

Definition hex_digit (n : N) : ascii :=
  if (n <? 10)%N then ascii_of_N (48 + n) else ascii_of_N (87 + n).

Definition escape_char (c : ascii) : list ascii :=
  if Ascii.eqb c quote then [backslash; quote]
  else if Ascii.eqb c backslash then [backslash; backslash]
  else if Ascii.eqb c "008" then [backslash; "b"%char]
  else if Ascii.eqb c "009" then [backslash; "t"%char]
  else if Ascii.eqb c "010" then [backslash; "n"%char]
  else if Ascii.eqb c "012" then [backslash; "f"%char]
  else if Ascii.eqb c "013" then [backslash; "r"%char]
  else
    let n := N_of_ascii c in
    if (n <? 32)%N || (126 <? n)%N
    then [backslash; "u"%char; "0"%char; "0"%char; hex_digit (n / 16); hex_digit (n mod 16)]
    else [c].

Fixpoint escape (s : string) : list ascii :=
  match s with
  | EmptyString => []
  | String c s' => escape_char c ++ escape s'
  end.

Definition write_string (s : string) : list ascii := quote :: escape s ++ [quote].

(** The texts of the items of a list or a dictionary, with [", "] between
    them. *)
Fixpoint join (texts : list (list ascii)) : list ascii :=
  match texts with
  | [] => []
  | [text] => text
  | text :: texts' => text ++ ","%char :: " "%char :: join texts'
  end.

Fixpoint write (v : pyval) : list ascii :=
  match v with
  | PNone => chars "null"
  | PBool b => if b then chars "true" else chars "false"
  | PInt z => write_int z
  | PFloat f => write_float f
  | PStr s => write_string s
  | PList l => "["%char :: join (map write l) ++ ["]"%char]
  | PDict d =>
      "{"%char
        :: join (map (fun kv => write_string (fst kv) ++ ":"%char :: " "%char :: write (snd kv)) d)
        ++ ["}"%char]
  end.

Definition dumps (v : pyval) : string := string_of_list_ascii (write v).

(** *** Reading *)

Definition is_space (c : ascii) : bool :=
  Ascii.eqb c " " || Ascii.eqb c "009" || Ascii.eqb c "010" || Ascii.eqb c "013".

Fixpoint skip_ws (cs : list ascii) : list ascii :=
  match cs with
  | c :: cs' => if is_space c then skip_ws cs' else cs
  | [] => []
  end.

Fixpoint after (literal cs : list ascii) : option (list ascii) :=
  match literal, cs with
  | [], _ => Some cs
  | l :: literal', c :: cs' => if Ascii.eqb l c then after literal' cs' else None
  | _ :: _, [] => None
  end.

Definition digit_value (c : ascii) : option Z :=
  let n := Z.of_N (N_of_ascii c) in
  if (48 <=? n) && (n <=? 57) then Some (n - 48) else None.

(** The digits at the head of [cs], read onto [acc], and their number
    added to [count]. *)
Fixpoint read_digits (cs : list ascii) (acc : Z) (count : nat) : Z * nat * list ascii :=
  match cs with
  | c :: cs' =>
      match digit_value c with
      | Some d => read_digits cs' (10 * acc + d) (S count)
      | None => (acc, count, cs)
      end
  | [] => (acc, count, [])
  end.

(** The binary64 number nearest to [n / 10^k], ties to even. *)
Definition float_of_decimal (negative : bool) (n : Z) (k : nat) : float :=
  let d := 10 ^ Z.of_nat k in
  let s := 64 + 4 * Z.of_nat k in
  let q := (n * 2 ^ s) / d in
  let r := (n * 2 ^ s) mod d in
  let loc := if r =? 0 then loc_Exact else loc_Inexact (Z.compare (2 * r) d) in
  SF2Prim (binary_round_aux prec emax negative q (- s) loc).

(** The binary64 number nearest to [n * 10^(x - k)]. *)
Definition float_of_scientific (negative : bool) (n : Z) (k : nat) (x : Z) : float :=
  if Z.of_nat k <=? x then float_of_decimal negative (n * 10 ^ (x - Z.of_nat k)) O
  else float_of_decimal negative n (Z.to_nat (Z.of_nat k - x)).

(** The exponent part of a number, if the text goes on with one. *)
Definition read_exponent (cs : list ascii) : option (Z * list ascii) :=
  match cs with
  | c :: r =>
      if Ascii.eqb c "e" || Ascii.eqb c "E" then
        let '(negative, r1) :=
          match r with
          | sign :: r' =>
              if Ascii.eqb sign "-" then (true, r')
              else if Ascii.eqb sign "+" then (false, r')
              else (false, r)
          | [] => (false, r)
          end in
        let '(x, count, r2) := read_digits r1 0 0 in
        match count with
        | O => None
        | S _ => Some (if negative then - x else x, r2)
        end
      else None
  | [] => None
  end.

(** A number after its sign: digits, then a fraction part or none, then
    an exponent part or none.  With neither it is an [int], otherwise a
    [float]. *)
Definition read_number (negative : bool) (cs : list ascii) : option (pyval * list ascii) :=
  let '(n, count, cs2) := read_digits cs 0 0 in
  match count with
  | O => None
  | S _ =>
      match cs2 with
      | c :: cs3 =>
          if Ascii.eqb c "." then
            let '(m, k, cs4) := read_digits cs3 n 0 in
            match k with
            | O => None
            | S _ =>
                match read_exponent cs4 with
                | Some (x, cs5) => Some (PFloat (float_of_scientific negative m k x), cs5)
                | None => Some (PFloat (float_of_decimal negative m k), cs4)
                end
            end
          else
            match read_exponent cs2 with
            | Some (x, cs5) => Some (PFloat (float_of_scientific negative n O x), cs5)
            | None => Some (PInt (if negative then - n else n), cs2)
            end
      | [] => Some (PInt (if negative then - n else n), cs2)
      end
  end.

Definition hex_value (c : ascii) : option N :=
  let n := N_of_ascii c in
  if (48 <=? n)%N && (n <=? 57)%N then Some (n - 48)%N
  else if (97 <=? n)%N && (n <=? 102)%N then Some (n - 87)%N
  else if (65 <=? n)%N && (n <=? 70)%N then Some (n - 55)%N
  else None.

(** The character a one-letter escape stands for. *)
Definition unescape (e : ascii) : option ascii :=
  if Ascii.eqb e quote then Some quote
  else if Ascii.eqb e backslash then Some backslash
  else if Ascii.eqb e "/" then Some "/"%char
  else if Ascii.eqb e "b" then Some "008"%char
  else if Ascii.eqb e "t" then Some "009"%char
  else if Ascii.eqb e "n" then Some "010"%char
  else if Ascii.eqb e "f" then Some "012"%char
  else if Ascii.eqb e "r" then Some "013"%char
  else None.

Definition prepend (c : ascii) (rest : option (string * list ascii))
  : option (string * list ascii) :=
  match rest with
  | Some (s, r) => Some (String c s, r)
  | None => None
  end.

(** A string after its opening quote, up to the closing one. *)
Fixpoint read_string (cs : list ascii) : option (string * list ascii) :=
  match cs with
  | [] => None
  | c :: cs' =>
      if Ascii.eqb c quote then Some (EmptyString, cs')
      else if Ascii.eqb c backslash then
        match cs' with
        | [] => None
        | e :: cs'' =>
            if Ascii.eqb e "u" then
              match cs'' with
              | a :: b :: c' :: d :: cs3 =>
                  match hex_value a, hex_value b, hex_value c', hex_value d with
                  | Some a, Some b, Some c', Some d =>
                      let n := (((a * 16 + b) * 16 + c') * 16 + d)%N in
                      if (n <? 256)%N then prepend (ascii_of_N n) (read_string cs3) else None
                  | _, _, _, _ => None
                  end
              | _ => None
              end
            else
              match unescape e with
              | Some ch => prepend ch (read_string cs'')
              | None => None
              end
        end
      else if (N_of_ascii c <? 32)%N then None
      else prepend c (read_string cs')
  end.

Definition value_body
    (elements : list ascii -> option (list pyval * list ascii))
    (members : list ascii -> option (list (string * pyval) * list ascii))
    (cs : list ascii) : option (pyval * list ascii) :=
  match skip_ws cs with
  | [] => None
  | c :: r =>
      if Ascii.eqb c quote then
        match read_string r with
        | Some (s, r') => Some (PStr s, r')
        | None => None
        end
      else if Ascii.eqb c "[" then
        match skip_ws r with
        | c' :: r' =>
            if Ascii.eqb c' "]" then Some (PList [], r')
            else match elements r with
                 | Some (l, r'') => Some (PList l, r'')
                 | None => None
                 end
        | [] => None
        end
      else if Ascii.eqb c "{" then
        match skip_ws r with
        | c' :: r' =>
            if Ascii.eqb c' "}" then Some (PDict [], r')
            else match members r with
                 | Some (d, r'') => Some (PDict d, r'')
                 | None => None
                 end
        | [] => None
        end
      else if Ascii.eqb c "n" then option_map (pair PNone) (after (chars "ull") r)
      else if Ascii.eqb c "t" then option_map (pair (PBool true)) (after (chars "rue") r)
      else if Ascii.eqb c "f" then option_map (pair (PBool false)) (after (chars "alse") r)
      else if Ascii.eqb c "N" then option_map (pair (PFloat nan)) (after (chars "aN") r)
      else if Ascii.eqb c "I" then
        option_map (pair (PFloat infinity)) (after (chars "nfinity") r)
      else if Ascii.eqb c "-" then
        match after (chars "Infinity") r with
        | Some r' => Some (PFloat neg_infinity, r')
        | None => read_number true r
        end
      else read_number false (c :: r)
  end.

Definition elements_body
    (value : list ascii -> option (pyval * list ascii))
    (elements : list ascii -> option (list pyval * list ascii))
    (cs : list ascii) : option (list pyval * list ascii) :=
  match value cs with
  | None => None
  | Some (v, r) =>
      match skip_ws r with
      | c :: r' =>
          if Ascii.eqb c "," then
            match elements r' with
            | Some (l, r'') => Some (v :: l, r'')
            | None => None
            end
          else if Ascii.eqb c "]" then Some ([v], r')
          else None
      | [] => None
      end
  end.

Definition members_body
    (value : list ascii -> option (pyval * list ascii))
    (members : list ascii -> option (list (string * pyval) * list ascii))
    (cs : list ascii) : option (list (string * pyval) * list ascii) :=
  match skip_ws cs with
  | c :: r0 =>
      if Ascii.eqb c quote then
        match read_string r0 with
        | None => None
        | Some (k, r1) =>
            match skip_ws r1 with
            | c1 :: r2 =>
                if Ascii.eqb c1 ":" then
                  match value r2 with
                  | None => None
                  | Some (v, r3) =>
                      match skip_ws r3 with
                      | c3 :: r' =>
                          if Ascii.eqb c3 "," then
                            match members r' with
                            | Some (d, r'') => Some ((k, v) :: d, r'')
                            | None => None
                            end
                          else if Ascii.eqb c3 "}" then Some ([(k, v)], r')
                          else None
                      | [] => None
                      end
                  end
                else None
            | [] => None
            end
        end
      else None
  | [] => None
  end.

(** A value, the elements of a list after its bracket, the members of a
    dictionary after its brace; [fuel] bounds the nesting and the number
    of items. *)
Fixpoint read_value (fuel : nat) (cs : list ascii) {struct fuel}
  : option (pyval * list ascii) :=
  match fuel with
  | O => None
  | S fuel' => value_body (read_elements fuel') (read_members fuel') cs
  end
with read_elements (fuel : nat) (cs : list ascii) {struct fuel}
  : option (list pyval * list ascii) :=
  match fuel with
  | O => None
  | S fuel' => elements_body (read_value fuel') (read_elements fuel') cs
  end
with read_members (fuel : nat) (cs : list ascii) {struct fuel}
  : option (list (string * pyval) * list ascii) :=
  match fuel with
  | O => None
  | S fuel' => members_body (read_value fuel') (read_members fuel') cs
  end.

Definition loads (s : string) : option pyval :=
  let cs := chars s in
  match read_value (S (2 * length cs)) cs with
  | Some (v, r) =>
      match skip_ws r with
      | [] => Some v
      | _ :: _ => None
      end
  | None => None
  end.

(** *** Notions for the round trip *)

(** A text that does not go on with a digit. *)
Definition no_digit (cs : list ascii) : Prop :=
  match cs with
  | c :: _ => digit_value c = None
  | [] => True
  end.

(** A text that goes on with the end of an item or of a collection. *)
Definition closes (cs : list ascii) : Prop :=
  match cs with
  | c :: _ => c = ","%char \/ c = "}"%char \/ c = "]"%char
  | [] => True
  end.

(** The values that are neither a list nor a dictionary. *)
Definition scalar (v : pyval) : Prop :=
  match v with
  | PList _ | PDict _ => False
  | _ => True
  end.

(** The text of one member of a dictionary. *)
Definition write_member (kv : string * pyval) : list ascii :=
  write_string (fst kv) ++ ":"%char :: " "%char :: write (snd kv).

(** A dictionary of one member or more, and of [bound] at most, whose
    values are scalars. *)
Definition flat_record (bound : nat) (v : pyval) : Prop :=
  exists d, v = PDict d /\ d <> [] /\ (length d <= bound)%nat
            /\ Forall (fun kv => scalar (snd kv)) d.

End Json.

(** A runtime with the modelled codec in the place of its own. *)
Definition with_json (RT : Runtime) : Runtime := {|
  json_dumps := Json.dumps;
  json_loads := Json.loads;
  isoformat := @isoformat RT;
  rng := @rng RT;
  random_randint := @random_randint RT;
  random_uniform := @random_uniform RT;
  round_ndigits := @round_ndigits RT;
  numeric := @numeric RT;
  numeric_bool := @numeric_bool RT;
  numeric_float := @numeric_float RT
|}.

(** The reference runtime with the modelled codec, and on it the table of
    three products, the healthy gateway, the gateway whose connection is
    lost after the query, the gateway without a database, and the world
    with an empty cache. *)
Module Modelled.

Definition runtime : Runtime := with_json Reference.runtime.

Definition three_rows : list (@row runtime) :=
  [ @Build_row runtime 1 "SKU-001" "Widget" 7 (Some 10);
    @Build_row runtime 2 "SKU-002" "Gadget" 0 (Some 25);
    @Build_row runtime 3 "SKU-003" "Gizmo" 12 None ].

Definition pool_of (rows : list (@row runtime)) : @pool runtime :=
  @Build_pool runtime None
    (fun limit => if limit <? 0 then inl PostgresError else inr (take (Z.to_nat limit) rows))
    None.

Definition healthy : @globals runtime :=
  @Build_globals runtime (Some Reference.healthy_redis) (Some (pool_of three_rows)).

Definition release_fails : @globals runtime :=
  @Build_globals runtime (Some Reference.healthy_redis)
    (Some (@Build_pool runtime None (fetch (pool_of three_rows)) (Some InterfaceError))).

Definition no_database : @globals runtime :=
  @Build_globals runtime (Some Reference.healthy_redis) None.

Definition empty_world : @world runtime :=
  @Build_world runtime ∅ 42 [].

End Modelled.

(** * The other endpoints and further notions *)

(** What a handler can raise to the framework: an [HTTPException], which
    becomes a response with that status, or any other exception. *)
Inductive failure : Type :=
  | HTTPException (status_code : Z) (detail : string)
  | ValueError (message : string)
  | LibraryError (e : exn).

(** How a handler ends: it returns a value, or it raises. *)
Inductive reply (A : Type) : Type :=
  | Responds (a : A)
  | Fails (f : failure).
Arguments Responds {A} a.
Arguments Fails {A} f.

(** [int(x)] for a finite float: the whole part, towards zero. *)
Definition int_of_float (x : float) : Z :=
  match Prim2SF x with
  | S754_finite s m e =>
      let n := if 0 <=? e then Zpos m * 2 ^ e else Zpos m / 2 ^ (- e) in
      if s then - n else n
  | _ => 0
  end.

(** [d[key] = value] on a [dict]: the value is replaced where the key is,
    and the pair is added at the end otherwise. *)
Fixpoint dict_set (key : string) (value : pyval) (d : list (string * pyval))
  : list (string * pyval) :=
  match d with
  | [] => [(key, value)]
  | (k, v) :: d' =>
      if String.eqb key k then (k, value) :: d' else (k, v) :: dict_set key value d'
  end.

Section Endpoints.
Context `{RT : Runtime}.

(** [str(e)] for an exception of a library. *)
Variable exn_message : exn -> string.

(** ** [/test-db] (lines 164-216) *)

(** The dictionary built for a row at lines 189-195: the one of
    [get_products] without the discounted price. *)
Definition sample_of_row (p : row) : pyval :=
  PDict
    [ ("id", PStr (str_int (row_id p)));
      ("sku", PStr (row_sku p));
      ("name", PStr (row_name p));
      ("stock_level", PInt (row_stock_level p));
      ("price",
        match row_price p with
        | Some d => if numeric_bool d then PFloat (numeric_float d) else PInt 0
        | None => PInt 0
        end) ].

(** Lines 181-200: the query for five products, whose failure is caught
    and leaves an empty list.  The query is the one of [get_products] with
    the limit 5 written into its text. *)
Definition sample_products (p : pool) : list pyval :=
  match fetch p 5 with
  | inr products => map sample_of_row products
  | inl _ => []
  end.

(** Lines 176-209: the block [async with db_pool.acquire() as conn], which
    gives the connection back when it is left, by [return] or by an
    exception, and raises what the release raises. *)
Definition test_database_block (p : pool) (version : exn + string) (now : Z)
  : exn + pyval :=
  match acquire_error p with
  | Some e => inl e
  | None =>
      let body :=
        match version with
        | inl e => inl e
        | inr v =>
            let product_list := sample_products p in
            inr (PDict
              [ ("status", PStr "connected");
                ("database", PStr "PostgreSQL");
                ("version", PStr v);
                ("sample_products", PList product_list);
                ("product_count", PInt (Z.of_nat (length product_list)));
                ("timestamp", PStr (isoformat now)) ])
        end in
      match release_error p with
      | Some e => inl e
      | None => body
      end
  end.

(** [await test_database()], where [version] is what
    [conn.fetchval("SELECT version()")] does. *)
Definition test_database (g : globals) (version : exn + string) (now : Z) : reply pyval :=
  match db_pool g with
  | None => Fails (HTTPException 503 "Database connection not available")
  | Some p =>
      match test_database_block p version now with
      | inr report => Responds report
      | inl e => Fails (HTTPException 500 ("Database query failed: " +:+ exn_message e))
      end
  end.

(** ** [/test-redis] (lines 219-255) *)

(** [datetime.utcnow().timestamp()] in an f-string. *)
Variable timestamp_repr : Z -> string.

Record CacheTestResponse : Type := {
  key : string;
  value : string;
  ttl : Z;
  operation : string;
  cache_timestamp : string
}.

(** What the server answers to [TTL key]: the seconds left, or -2 when the
    key is not there. *)
Definition redis_ttl (db : gmap string (string * Z)) (now : Z) (k : string) : Z :=
  match db !! k with
  | Some (_, expiry) => if decide (now < expiry) then expiry - now else -2
  | None => -2
  end.

Definition test_key (now : Z) : string := "test:api-gateway:" +:+ timestamp_repr now.
Definition test_value (now : Z) : string := "Hello from API Gateway at " +:+ isoformat now.

(** The times of one call: what [datetime.utcnow()] gives at lines 232,
    233 and 247, each of which reads the clock anew, and the server's time
    when it runs the [SETEX] of line 236, the [GET] of line 239 and the
    [TTL] of line 240. *)
Record test_redis_times : Type := {
  key_time : Z;
  value_time : Z;
  setex_time : Z;
  get_time : Z;
  ttl_time : Z;
  response_time : Z
}.

(** Lines 230-248, the body of the [try]: [setex], [get], [ttl], each of
    which may raise, on the server's keys. *)
Definition test_redis_block (rc : redis) (ttl_error : option exn) (t : test_redis_times)
    (db : gmap string (string * Z))
  : (exn + CacheTestResponse) * gmap string (string * Z) :=
  let test_key := test_key (key_time t) in
  let test_value := test_value (value_time t) in
  match setex_error rc with
  | Some e => (inl e, db)
  | None =>
      let db1 := <[test_key := (test_value, setex_time t + 60)]> db in
      match get_error rc with
      | Some e => (inl e, db1)
      | None =>
          let retrieved_value := redis_lookup db1 (get_time t) test_key in
          match ttl_error with
          | Some e => (inl e, db1)
          | None =>
              (inr {| key := test_key;
                      value := if str_truthy retrieved_value
                               then default "" retrieved_value else "";
                      ttl := redis_ttl db1 (ttl_time t) test_key;
                      operation := "SET/GET";
                      cache_timestamp := isoformat (response_time t) |},
               db1)
          end
      end
  end.

(** [await test_redis()], where [ttl_error] tells whether
    [redis_client.ttl] raises. *)
Definition test_redis (g : globals) (ttl_error : option exn) (t : test_redis_times)
    (db : gmap string (string * Z))
  : reply CacheTestResponse * gmap string (string * Z) :=
  match redis_client g with
  | None => (Fails (HTTPException 503 "Redis connection not available"), db)
  | Some rc =>
      match test_redis_block rc ttl_error t db with
      | (inr response, db') => (Responds response, db')
      | (inl e, db') =>
          (Fails (HTTPException 500 ("Redis operation failed: " +:+ exn_message e)), db')
      end
  end.

(** ** [/test-http/{service}] (lines 258-320) *)

(** The HTTP client: [get(url, timeout)] raises, or gives a response whose
    [json()] raises or gives a value. *)
Record http : Type := {
  http_get : string -> option float -> exn + (exn + pyval)
}.

Record ServiceCallResponse : Type := {
  call_source : string;
  target : string;
  status : string;
  data : list (string * pyval);
  call_timestamp : string
}.

(** The validation of the field [data : Dict[str, Any]] by the response
    model, which raises or gives the dictionary. *)
Variable validate_data : pyval -> exn + list (string * pyval).

(** [os.getenv] *)
Variable getenv : string -> option string.

Fixpoint assoc (k : string) (l : list (string * string)) : option string :=
  match l with
  | [] => None
  | (k', v) :: l' => if String.eqb k k' then Some v else assoc k l'
  end.

Definition service_urls : list (string * string) :=
  [ ("inventory", default "http://inventory-service:8001" (getenv "INVENTORY_SERVICE_URL"));
    ("pricing", default "http://pricing-service:8002" (getenv "PRICING_SERVICE_URL"));
    ("external", "https://httpbin.org/json") ].

(** [await http_client.get(url, ...)] followed by [response.json()]. *)
Definition get_json (c : http) (url : string) (timeout : option float) : exn + pyval :=
  match http_get c url timeout with
  | inl e => inl e
  | inr response => response
  end.

(** The data of lines 295-300, [now] being the clock read at line 299. *)
Definition mocked_data (service : string) (now : Z) : pyval :=
  PDict
    [ ("mocked", PBool true);
      ("service", PStr service);
      ("message", PStr ("Mocked response from " +:+ service));
      ("timestamp", PStr (isoformat now)) ].

(** Lines 282-313, the body of the outer [try]: the URLs asked for, and
    the response or the exception.  The clock is read at line 299, when
    the answer is mocked ([mocked_at]), and again at line 312, when the
    response is built ([answered_at]). *)
Definition test_http_call_block (c : http) (service url : string)
    (mocked_at answered_at : Z)
  : list string * (exn + ServiceCallResponse) :=
  let '(asked, response_data, call_status) :=
    if String.eqb service "inventory" || String.eqb service "pricing" then
      match get_json c (url +:+ "/health") (Some 5%float) with
      | inr response_data => ([url +:+ "/health"], inr response_data, "success")
      | inl _ => ([url +:+ "/health"], inr (mocked_data service mocked_at), "mocked")
      end
    else
      ([url], get_json c url None, "success") in
  (asked,
   match response_data with
   | inl e => inl e
   | inr response_data =>
       match validate_data response_data with
       | inl e => inl e
       | inr d =>
           inr {| call_source := "api-gateway"; target := service; status := call_status;
                  data := d; call_timestamp := isoformat answered_at |}
       end
   end).

(** [await test_http_call(service)] *)
Definition test_http_call (http_client : option http) (service : string)
    (mocked_at answered_at : Z)
  : list string * reply ServiceCallResponse :=
  match http_client with
  | None => ([], Fails (HTTPException 503 "HTTP client not initialized"))
  | Some c =>
      match assoc service service_urls with
      | None =>
          ([], Fails (HTTPException 400
                        ("Unknown service: " +:+ service
                           +:+ ". Available: ['inventory', 'pricing', 'external']")))
      | Some url =>
          match test_http_call_block c service url mocked_at answered_at with
          | (asked, inr response) => (asked, Responds response)
          | (asked, inl e) =>
              (asked, Fails (HTTPException 500 ("Service call failed: " +:+ exn_message e)))
          end
      end
  end.

(** ** [/order] (lines 421-461) *)

(** [f"{datetime.utcnow().timestamp():.0f}"] *)
Variable order_stamp : Z -> string.

(** The steps of lines 441-447; the delays are the binary64 numbers of
    the literals 0.1, 0.05, 0.15, 0.2 and 0.05. *)
Definition order_steps : list (string * float) :=
  [ ("inventory_check", 0x1.999999999999ap-4%float);
    ("price_calculation", 0x1.999999999999ap-5%float);
    ("stock_reservation", 0x1.3333333333333p-3%float);
    ("payment_processing", 0x1.999999999999ap-3%float);
    ("order_confirmation", 0x1.999999999999ap-5%float) ].

(** The dictionary appended for a step at lines 451-455. *)
Definition step_record (step_name : string) (delay : float) : pyval :=
  PDict
    [ ("name", PStr step_name);
      ("status", PStr "completed");
      ("duration_ms", PInt (int_of_float (PrimFloat.mul delay 1000%float))) ].

(** The loop of lines 449-455: the sleeps made and the records appended. *)
Fixpoint run_steps (steps : list (string * float)) (slept : list float)
    (done : list pyval) : list float * list pyval :=
  match steps with
  | [] => (slept, done)
  | (step_name, delay) :: steps' =>
      run_steps steps' (slept ++ [delay]) (done ++ [step_record step_name delay])
  end.

(** [s["duration_ms"]] *)
Definition duration_ms (s : pyval) : Z :=
  match s with
  | PDict d =>
      match dict_get "duration_ms" d with
      | Some (PInt n) => n
      | _ => 0
      end
  | _ => 0
  end.

(** [sum(xs)] *)
Definition py_sum (xs : list Z) : Z := foldl Z.add 0 xs.

(** [await create_order(product_id, quantity)]: the sleeps made and the
    order returned.  The clock is read at line 433, before the sleeps
    ([created_at]), and at line 459, after them ([confirmed_at]). *)
Definition create_order (product_id : string) (quantity : Z) (created_at confirmed_at : Z)
  : list float * pyval :=
  let order :=
    [ ("order_id", PStr ("ORD-" +:+ order_stamp created_at));
      ("product_id", PStr product_id);
      ("quantity", PInt quantity);
      ("status", PStr "pending");
      ("steps", PList []) ] in
  let '(slept, done) := run_steps order_steps [] [] in
  let order := dict_set "steps" (PList done) order in
  let order := dict_set "status" (PStr "confirmed") order in
  let order :=
    dict_set "total_duration_ms" (PInt (py_sum (map duration_ms done))) order in
  let order := dict_set "timestamp" (PStr (isoformat confirmed_at)) order in
  (slept, PDict order).

End Endpoints.

(** ** [/error-test/{error_type}] (lines 464-493) *)

(** The types the fallback answer lists (line 492). *)
Definition available_error_types : list string :=
  ["400"; "404"; "500"; "timeout"; "exception"].

Definition unknown_error_type : pyval :=
  PDict
    [ ("message", PStr "Unknown error type");
      ("available", PList (map PStr available_error_types)) ].

(** [await test_error(error_type)]: the seconds slept, and the answer. *)
Definition test_error (error_type : string) : Z * reply pyval :=
  if String.eqb error_type "400" then
    (0, Fails (HTTPException 400 "Bad request error for testing"))
  else if String.eqb error_type "404" then
    (0, Fails (HTTPException 404 "Resource not found for testing"))
  else if String.eqb error_type "500" then
    (0, Fails (HTTPException 500 "Internal server error for testing"))
  else if String.eqb error_type "timeout" then
    (35, Responds (PDict [("message", PStr "This should timeout")]))
  else if String.eqb error_type "exception" then
    (0, Fails (ValueError "Unhandled exception for testing APM error tracking"))
  else
    (0, Responds unknown_error_type).

(** Whether a collaborator call goes to the cache. *)
Definition cache_call (ev : event) : bool :=
  match ev with
  | RedisGet _ | RedisSetex _ _ _ => true
  | _ => false
  end.

(** The keys of a record, in order. *)
Definition record_keys (v : pyval) : option (list string) :=
  match v with
  | PDict d => Some (map fst d)
  | _ => None
  end.

(** The keys every product record is built with, at lines 362-368 and
    393-398. *)
Definition product_keys : list string :=
  ["id"; "sku"; "name"; "stock_level"; "price"; "discounted_price"].

(** [d.get(key)] on a value that is a [dict]. *)
Definition field (k : string) (v : pyval) : option pyval :=
  match v with
  | PDict d => dict_get k d
  | _ => None
  end.

(** ** Examples for the other endpoints

    Stand-ins for what the endpoints take from their libraries, and a few
    collaborators, on which the properties below are run. *)

Module Examples.
Import Reference.

Definition exn_message (e : exn) : string :=
  match e with
  | RedisError => "redis error"
  | JSONDecodeError => "Expecting value"
  | PostgresError => "postgres error"
  | InterfaceError => "connection is closed"
  end.

Definition timestamp_repr (now : Z) : string := pretty now +:+ ".0".

Definition order_stamp (now : Z) : string := pretty now.

(** A validation that takes dictionaries and nothing else. *)
Definition validate_data (v : pyval) : exn + list (string * pyval) :=
  match v with
  | PDict d => inr d
  | _ => inl JSONDecodeError
  end.

(** No variable of the environment is set. *)
Definition getenv (name : string) : option string := None.

(** An HTTP client that reaches nothing. *)
Definition unreachable : http := {| http_get := fun _ _ => inl InterfaceError |}.

(** A Redis client whose [setex] fails. *)
Definition write_fails : @globals runtime :=
  {| redis_client := Some {| get_error := None; setex_error := Some RedisError |};
     db_pool := Some (pool_of three_rows) |}.

(** A pool whose table of products is missing: every query fails. *)
Definition no_table : @globals runtime :=
  {| redis_client := None;
     db_pool := Some (@Build_pool runtime None (fun _ => inl PostgresError) None) |}.

(** A call of [test_redis] during which the clock moves on. *)
Definition one_second_later : test_redis_times :=
  {| key_time := 1000; value_time := 1001; setex_time := 1002;
     get_time := 1003; ttl_time := 1003; response_time := 1004 |}.

End Examples.

(** * Properties *)

Section Properties.
Context `{RT : Runtime}.

(** ** Running statements *)

Ltac unfold_stmt :=
  unfold mbind, mret, stmt_bind, stmt_ret, seq_bind, pure, skip, raise,
    return_result, try_except, emit, assign_result, with_world in *.

Lemma logged_logged (evs1 evs2 : list event) (w : world) :
  logged evs2 (logged evs1 w) = logged (evs1 ++ evs2) w.
Proof. unfold logged. cbn. rewrite app_assoc. reflexivity. Qed.

Lemma cache_writes_app (evs1 evs2 : list event) :
  cache_writes (evs1 ++ evs2) = cache_writes evs1 ++ cache_writes evs2.
Proof.
  induction evs1 as [|ev evs1 IH]; [reflexivity|].
  destruct ev; cbn; rewrite ?IH; reflexivity.
Qed.

Lemma mock_product_run (i : Z) (fr : frame) :
  mock_product i fr =
    (Next (fst (draw_mock i (random_state (env fr)))),
     {| env := reseeded (snd (draw_mock i (random_state (env fr)))) (env fr);
        result := result fr |}).
Proof.
  unfold mock_product, draw_mock, randint, uniform, reseeded. unfold_stmt.
  destruct (random_randint 0 100 (random_state (env fr))) as [n g1]. cbn.
  destruct (random_uniform 10 1000 g1) as [x g2]. cbn.
  destruct (random_uniform 9 900 g2) as [y g3]. cbn.
  reflexivity.
Qed.

Lemma comprehension_mock_run (xs : list Z) (fr : frame) :
  comprehension mock_product xs fr =
    (Next (fst (draw_mocks xs (random_state (env fr)))),
     {| env := reseeded (snd (draw_mocks xs (random_state (env fr)))) (env fr);
        result := result fr |}).
Proof.
  revert fr. induction xs as [|x xs IH]; intros fr.
  - destruct fr as [[db seed tr] r]. reflexivity.
  - cbn [comprehension draw_mocks].
    unfold mbind at 1, stmt_bind, seq_bind. rewrite mock_product_run.
    unfold mbind at 1, stmt_bind, seq_bind. rewrite IH. cbn.
    destruct (draw_mock x (random_state (env fr))) as [y seed1]. cbn.
    destruct (draw_mocks xs seed1) as [ys seed2]. reflexivity.
Qed.

Lemma draw_mocks_length (xs : list Z) (seed : rng) :
  length (fst (draw_mocks xs seed)) = length xs.
Proof.
  revert seed. induction xs as [|x xs IH]; intros seed; [reflexivity|].
  cbn. destruct (draw_mock x seed) as [y seed1].
  specialize (IH seed1). destruct (draw_mocks xs seed1) as [ys seed2].
  cbn in *. congruence.
Qed.

Lemma py_range_length (start stop : Z) :
  length (py_range start stop) = Z.to_nat (stop - start).
Proof. unfold py_range. apply length_seqZ. Qed.

(** What the mock fallback does: it passes on to the next statement, having
    put the mocks drawn for [range(1, min(limit + 1, 6))] and the source
    [mock] into [result], and having touched nothing but the generator. *)
Lemma mock_fallback_run (limit : Z) (fr : frame) :
  let drawn := draw_mocks (py_range 1 (Z.min (limit + 1) 6)) (random_state (env fr)) in
  mock_fallback limit fr
    = (Next tt, {| env := reseeded (snd drawn) (env fr);
                   result := set_source "mock" (set_products (PList (fst drawn)) (result fr)) |}).
Proof.
  unfold mock_fallback. cbn zeta.
  unfold mbind at 1, stmt_bind, seq_bind. rewrite comprehension_mock_run.
  reflexivity.
Qed.

(** The cache read, by cases of [probe_cache]. *)
Lemma try_cache_first_run (g : globals) (now limit : Z) (fr : frame) :
  try_cache_first g now limit fr =
    match cache_hit g now limit (env fr) with
    | Some v =>
        let r := set_cached true (set_source "cache" (set_products v (result fr))) in
        (Return r, {| env := after_cache_read g now limit (env fr); result := r |})
    | None =>
        (Next tt, {| env := after_cache_read g now limit (env fr); result := result fr |})
    end.
Proof.
  unfold try_cache_first, cache_hit, after_cache_read, probe_cache, redis_get, loads.
  destruct fr as [w r]. cbn [env result].
  destruct (redis_client g) as [rc|]; [|reflexivity].
  unfold_stmt. cbn.
  destruct (get_error rc) as [e|]; cbn.
  { rewrite logged_logged. reflexivity. }
  destruct (redis_lookup (redis_db w) now (cache_key limit)) as [s|]; cbn; [|reflexivity].
  destruct (negb (String.eqb s "")); cbn; [|reflexivity].
  destruct (json_loads s) as [v|]; cbn; [reflexivity|].
  rewrite logged_logged. reflexivity.
Qed.

(** The write-back never raises, and leaves [result] alone. *)
Lemma cache_the_result_run (g : globals) (now limit : Z) (pl : list pyval) (fr : frame) :
  cache_the_result g now limit pl fr
    = (Next tt, {| env := after_write_back g now limit pl (env fr); result := result fr |}).
Proof.
  unfold cache_the_result, after_write_back, redis_setex.
  destruct fr as [w r]. cbn [env result].
  destruct (redis_client g) as [rc|]; [|reflexivity].
  destruct pl as [|x pl]; [reflexivity|].
  unfold_stmt. cbn.
  destruct (setex_error rc) as [e|]; cbn; [|reflexivity].
  rewrite logged_logged. reflexivity.
Qed.

(** The database block, by cases of [probe_store]. *)
Lemma fetch_from_database_run (g : globals) (now limit : Z) (fr : frame) :
  fetch_from_database g now limit fr =
    match probe_store g limit with
    | StoreRows rows =>
        (Next tt, {| env := after_store_read g now limit (env fr);
                     result := set_products (PList (map product_of_row rows)) (result fr) |})
    | StoreLost rows _ =>
        mock_fallback limit
          {| env := after_store_read g now limit (env fr);
             result := set_products (PList (map product_of_row rows)) (result fr) |}
    | _ =>
        mock_fallback limit
          {| env := after_store_read g now limit (env fr); result := result fr |}
    end.
Proof.
  unfold fetch_from_database, probe_store, after_store_read.
  destruct fr as [w r]. cbn [env result].
  destruct (db_pool g) as [p|]; [|reflexivity].
  unfold try_except, async_with_acquire, conn_fetch.
  unfold mbind at 1, stmt_bind, seq_bind. unfold emit at 1, with_world. cbn.
  destruct (acquire_error p) as [e|]; cbn.
  { unfold mbind at 1, stmt_bind, seq_bind. unfold emit at 1, with_world. cbn.
    rewrite logged_logged. reflexivity. }
  unfold mbind at 1, stmt_bind, seq_bind.
  unfold mbind at 1, stmt_bind, seq_bind. unfold emit at 1, with_world. cbn.
  destruct (fetch p limit) as [e|rows]; cbn.
  - destruct (release_error p) as [e'|]; cbn;
      unfold mbind at 1, stmt_bind, seq_bind; unfold emit at 1, with_world; cbn;
      rewrite !logged_logged; reflexivity.
  - unfold mbind at 1, stmt_bind, seq_bind. unfold assign_result at 1. cbn.
    rewrite cache_the_result_run. cbn. rewrite !logged_logged. cbn.
    destruct (release_error p) as [e'|]; cbn; [|reflexivity].
    unfold mbind at 1, stmt_bind, seq_bind. unfold emit at 1, with_world. cbn.
    reflexivity.
Qed.

(** ** The handler, by cases *)

(** Either the cache answers, or the handler goes on from line 349 in the
    world the cache read left. *)
Lemma get_products_run (g : globals) (now limit : Z) (w : world) :
  get_products g now limit w =
    match cache_hit g now limit w with
    | Some v => (Returned (cache_response now v), after_cache_read g now limit w)
    | None => get_products_from_store g now limit (after_cache_read g now limit w)
    end.
Proof.
  unfold get_products, get_products_from_store, get_products_body, call.
  unfold mbind at 1, stmt_bind, seq_bind. rewrite try_cache_first_run. cbn [env result].
  destruct (cache_hit g now limit w) as [v|]; reflexivity.
Qed.

Lemma get_products_from_store_unfold (g : globals) (now limit : Z) (w : world) :
  get_products_from_store g now limit w =
    match fetch_from_database g now limit {| env := w; result := initial_result now |} with
    | (Next _, fr) => (Returned (result fr), env fr)
    | (Return r, fr) => (Returned r, env fr)
    | (Raise e, fr) => (Raised e, env fr)
    end.
Proof.
  unfold get_products_from_store, call. unfold_stmt.
  destruct (fetch_from_database g now limit _) as [[[]|r|e] fr]; reflexivity.
Qed.

Lemma after_store_read_random (g : globals) (now limit : Z) (w : world) :
  random_state (after_store_read g now limit w) = random_state w.
Proof.
  unfold after_store_read, after_write_back.
  repeat (match goal with
          | |- context [match ?x with _ => _ end] => destruct x
          end; cbn); reflexivity.
Qed.

(** From line 349 on: the rows of the store, or mocks. *)
Lemma get_products_from_store_run (g : globals) (now limit : Z) (w : world) :
  get_products_from_store g now limit w =
    match probe_store g limit with
    | StoreRows rows =>
        (Returned (database_response now rows), after_store_read g now limit w)
    | _ =>
        let drawn := draw_mocks (py_range 1 (Z.min (limit + 1) 6)) (random_state w) in
        (Returned (mock_response now (fst drawn)),
         reseeded (snd drawn) (after_store_read g now limit w))
    end.
Proof.
  rewrite get_products_from_store_unfold, fetch_from_database_run. cbn [env result].
  destruct (probe_store g limit) as [|e|rows e|rows]; [| | |reflexivity];
    rewrite mock_fallback_run; cbn [env result]; rewrite after_store_read_random;
    reflexivity.
Qed.

(** ** What a call leaves in the world *)

Lemma store_read_succeeds_probe (g : globals) (limit : Z) (rows : list row) :
  store_read_succeeds g limit rows <-> probe_store g limit = StoreRows rows.
Proof.
  unfold store_read_succeeds, probe_store. split.
  - intros (p & -> & -> & -> & ->). reflexivity.
  - destruct (db_pool g) as [p|]; [|discriminate].
    destruct (acquire_error p) eqn:Ha; [discriminate|].
    destruct (fetch p limit) as [e|rows'] eqn:Hf, (release_error p) eqn:Hr;
      try discriminate.
    intros [= ->]. exists p. auto.
Qed.

Lemma store_yields_probe (g : globals) (limit : Z) (rows : list row) :
  store_yields g limit rows <->
  probe_store g limit = StoreRows rows \/ exists e, probe_store g limit = StoreLost rows e.
Proof.
  unfold store_yields, probe_store. split.
  - intros (p & -> & -> & ->). destruct (release_error p); eauto.
  - destruct (db_pool g) as [p|]; [|intros [|[]]; discriminate].
    destruct (acquire_error p) eqn:Ha; [intros [|[]]; discriminate|].
    destruct (fetch p limit) as [e|rows'] eqn:Hf, (release_error p) eqn:Hr;
      (intros [H|[e' H]]; try discriminate; injection H as ->; eauto).
Qed.

Lemma after_cache_read_logged (g : globals) (now limit : Z) (w : world) :
  exists evs, after_cache_read g now limit w = logged evs w /\ cache_writes evs = [].
Proof.
  unfold after_cache_read.
  destruct (probe_cache g now limit w); try (eexists; split; [reflexivity|reflexivity]).
  exists []. split; [|reflexivity].
  unfold logged. rewrite app_nil_r. destruct w; reflexivity.
Qed.

Lemma after_write_back_trace (g : globals) (now limit : Z) (pl : list pyval) (w : world) :
  exists evs, trace (after_write_back g now limit pl w) = trace w ++ evs
              /\ cache_writes evs = attempted_write_back g limit pl.
Proof.
  unfold after_write_back, attempted_write_back.
  destruct (redis_client g) as [rc|]; [destruct pl as [|x pl]|];
    try (exists []; rewrite app_nil_r; split; reflexivity).
  destruct (setex_error rc); eexists; split; reflexivity.
Qed.

(** The cache writes of the database block: the attempted write-back when
    the query gave rows, none otherwise. *)
Lemma after_store_read_trace (g : globals) (now limit : Z) (w : world) :
  exists evs,
    trace (after_store_read g now limit w) = trace w ++ evs
    /\ cache_writes evs =
         match probe_store g limit with
         | StoreRows rows | StoreLost rows _ =>
             attempted_write_back g limit (map product_of_row rows)
         | _ => []
         end.
Proof.
  unfold after_store_read, probe_store.
  destruct (db_pool g) as [p|];
    [|exists []; rewrite app_nil_r; split; reflexivity].
  destruct (acquire_error p); [eexists; split; reflexivity|].
  destruct (fetch p limit) as [e|rows].
  { destruct (release_error p); eexists; split; reflexivity. }
  destruct (after_write_back_trace g now limit (map product_of_row rows)
              (logged [PoolAcquire; ConnFetch limit] w)) as (evs & Htr & Hw).
  destruct (release_error p); cbn; rewrite Htr; cbn; rewrite <- !app_assoc;
    eexists; (split; [reflexivity|]);
    rewrite !cache_writes_app, Hw; cbn; rewrite app_nil_r; reflexivity.
Qed.

(** The cache after the database block when the write-back went through. *)
Lemma after_store_read_cached (g : globals) (now limit : Z) (w : world)
    (rc : redis) (rows : list row) :
  store_yields g limit rows -> rows <> [] ->
  redis_client g = Some rc -> setex_error rc = None ->
  redis_db (after_store_read g now limit w)
    = <[cache_key limit := (json_dumps (PList (map product_of_row rows)), now + 300)]>
        (redis_db w).
Proof.
  intros (p & Hp & Ha & Hf) Hrows Hrc Hset.
  unfold after_store_read, after_write_back. rewrite Hp, Ha, Hf, Hrc.
  destruct rows as [|x rows]; [congruence|]. cbn [map]. rewrite Hset.
  destruct (release_error p); reflexivity.
Qed.

(** The cache read changes neither the cache nor the generator. *)
Lemma after_cache_read_db (g : globals) (now limit : Z) (w : world) :
  redis_db (after_cache_read g now limit w) = redis_db w
  /\ random_state (after_cache_read g now limit w) = random_state w.
Proof.
  destruct (after_cache_read_logged g now limit w) as (evs & -> & _). split; reflexivity.
Qed.

(** The three ways a call ends. *)
Lemma get_products_inv (g : globals) (now limit : Z) (w : world) (o : outcome) (w' : world) :
  get_products g now limit w = (o, w') ->
  let w1 := after_cache_read g now limit w in
  let w2 := after_store_read g now limit w1 in
  (exists v, cache_hit g now limit w = Some v
             /\ o = Returned (cache_response now v) /\ w' = w1)
  \/ (cache_hit g now limit w = None
      /\ exists rows, probe_store g limit = StoreRows rows
                      /\ o = Returned (database_response now rows) /\ w' = w2)
  \/ (cache_hit g now limit w = None
      /\ (forall rows, probe_store g limit <> StoreRows rows)
      /\ exists mocks seed,
           o = Returned (mock_response now mocks)
           /\ length mocks = Z.to_nat (Z.min (limit + 1) 6 - 1)
           /\ w' = reseeded seed w2).
Proof.
  rewrite get_products_run. cbn zeta.
  destruct (cache_hit g now limit w) as [v|].
  { intros [= <- <-]. left. eauto. }
  rewrite get_products_from_store_run.
  destruct (probe_store g limit) as [|e|rows e|rows] eqn:Hp;
    intros [= <- <-]; right.
  4: { left. eauto. }
  all: right; split; [reflexivity|]; split; [discriminate|];
    eexists _, _; split; [reflexivity|]; split; [|reflexivity];
    rewrite draw_mocks_length, py_range_length; reflexivity.
Qed.

Lemma get_products_returns (g : globals) (now limit : Z) (w : world) :
  exists r w', get_products g now limit w = (Returned r, w')
               /\ (source r = "cache" \/ source r = "database" \/ source r = "mock").
Proof.
  destruct (get_products g now limit w) as [o w'] eqn:Hrun.
  destruct (get_products_inv _ _ _ _ _ _ Hrun)
    as [(v & _ & -> & _)|[(_ & rows & _ & -> & _)|(_ & _ & mocks & seed & -> & _)]];
    eexists _, _; (split; [reflexivity|]); cbn; auto.
Qed.

Lemma store_lost_probe (g : globals) (limit : Z) (rows : list row) (e : exn) :
  probe_store g limit = StoreLost rows e ->
  exists p, db_pool g = Some p /\ acquire_error p = None
            /\ fetch p limit = inr rows /\ release_error p = Some e.
Proof.
  unfold probe_store.
  destruct (db_pool g) as [p|]; [|discriminate].
  destruct (acquire_error p) eqn:Ha; [discriminate|].
  destruct (fetch p limit) as [e'|rows'] eqn:Hf, (release_error p) eqn:Hr;
    try discriminate.
  intros [= -> ->]. exists p. auto.
Qed.

(** The trace of a call, and the cache writes in it. *)
Lemma get_products_trace (g : globals) (now limit : Z) (w : world) (o : outcome) (w' : world) :
  get_products g now limit w = (o, w') ->
  exists evs,
    trace w' = trace w ++ evs
    /\ cache_writes evs =
         match cache_hit g now limit w, probe_store g limit with
         | None, (StoreRows rows | StoreLost rows _) =>
             attempted_write_back g limit (map product_of_row rows)
         | _, _ => []
         end.
Proof.
  intros Hrun.
  destruct (after_cache_read_logged g now limit w) as (evs1 & Hw1 & Hnone).
  destruct (after_store_read_trace g now limit (after_cache_read g now limit w))
    as (evs2 & Htr2 & Hwr2).
  destruct (get_products_inv _ _ _ _ _ _ Hrun)
    as [(v & -> & _ & ->)|[(-> & rows & Hp & _ & ->)|(-> & Hstore & mocks & seed & _ & _ & ->)]].
  - exists evs1. rewrite Hw1. split; [reflexivity|assumption].
  - exists (evs1 ++ evs2). rewrite Htr2, Hw1. cbn. rewrite app_assoc.
    split; [reflexivity|]. rewrite cache_writes_app, Hnone, Hwr2. reflexivity.
  - exists (evs1 ++ evs2). cbn [reseeded trace]. rewrite Htr2, Hw1. cbn. rewrite app_assoc.
    split; [reflexivity|]. rewrite cache_writes_app, Hnone, Hwr2. reflexivity.
Qed.

(** The cache read when the server has a non-empty text for the key. *)
Lemma probe_cache_found (g : globals) (now limit : Z) (w : world) (rc : redis) (s : string) :
  redis_client g = Some rc -> get_error rc = None ->
  redis_lookup (redis_db w) now (cache_key limit) = Some s -> s <> "" ->
  probe_cache g now limit w =
    match json_loads s with
    | Some v => CacheHit s v
    | None => CacheCorrupt s
    end.
Proof.
  intros Hrc Hget Hlook Hs. unfold probe_cache. rewrite Hrc, Hget, Hlook. cbn.
  apply String.eqb_neq in Hs. rewrite Hs. reflexivity.
Qed.

Lemma probe_cache_absent (g : globals) (now limit : Z) (w : world) (rc : redis) :
  redis_client g = Some rc -> get_error rc = None ->
  redis_lookup (redis_db w) now (cache_key limit) = None ->
  probe_cache g now limit w = CacheMiss.
Proof.
  intros Hrc Hget Hlook. unfold probe_cache. rewrite Hrc, Hget, Hlook. reflexivity.
Qed.

(** The call when the server has a non-empty text for the key. *)
Lemma found_text_run (g : globals) (now limit : Z) (w : world) (rc : redis) (s : string) :
  redis_client g = Some rc -> get_error rc = None ->
  redis_lookup (redis_db w) now (cache_key limit) = Some s -> s <> "" ->
  get_products g now limit w =
    match json_loads s with
    | Some v => (Returned (cache_response now v), logged [RedisGet (cache_key limit)] w)
    | None =>
        get_products_from_store g now limit
          (logged [RedisGet (cache_key limit);
                   LogWarning "Cache read failed" JSONDecodeError] w)
    end.
Proof.
  intros Hrc Hget Hlook Hs.
  rewrite get_products_run. unfold cache_hit, after_cache_read.
  rewrite (probe_cache_found g now limit w rc s Hrc Hget Hlook Hs).
  destruct (json_loads s); reflexivity.
Qed.

(** Past the cache read, the response depends on the world through the
    generator only. *)
Lemma from_store_response (g : globals) (now limit : Z) (w1 w2 : world) :
  random_state w1 = random_state w2 ->
  fst (get_products_from_store g now limit w1)
    = fst (get_products_from_store g now limit w2).
Proof.
  intros Hseed. rewrite !get_products_from_store_run.
  destruct (probe_store g limit); cbn; rewrite ?Hseed; reflexivity.
Qed.

Lemma product_of_row_discount (p : row) : discount_applied (product_of_row p).
Proof.
  unfold discount_applied, product_of_row.
  destruct (row_price p) as [d|]; [destruct (numeric_bool d)|]; cbn.
  - eexists _, _, _. repeat split; reflexivity.
  - exists (PInt 0), (PInt 0), (float_of_int 0). repeat split.
  - exists (PInt 0), (PInt 0), (float_of_int 0). repeat split.
Qed.

(** What a hit tells about the cache. *)
Lemma cache_hit_inv (g : globals) (now limit : Z) (w : world) (v : pyval) :
  cache_hit g now limit w = Some v ->
  exists s expiry,
    redis_db w !! cache_key limit = Some (s, expiry)
    /\ now < expiry /\ s <> "" /\ json_loads s = Some v.
Proof.
  unfold cache_hit, probe_cache, redis_lookup.
  destruct (redis_client g) as [rc|]; [|discriminate].
  destruct (get_error rc); [discriminate|].
  destruct (redis_db w !! cache_key limit) as [[s expiry]|]; [|discriminate].
  destruct (decide (now < expiry)) as [Hlive|]; [|discriminate].
  cbn. destruct (String.eqb s "") eqn:Hs; [discriminate|]. cbn.
  destruct (json_loads s) as [v'|] eqn:Hv; [|discriminate].
  intros [= ->]. exists s, expiry. apply String.eqb_neq in Hs. auto.
Qed.

(** A call that finds the cache without a live entry for the key, and
    whose query gives at least one row, leaves the rows' records in the
    cache when [setex] goes through. *)
Lemma write_then_lookup (g : globals) (now1 now2 limit : Z) (w : world)
    (rc : redis) (rows : list row) :
  cache_hit g now1 limit w = None ->
  store_yields g limit rows -> rows <> [] ->
  redis_client g = Some rc -> setex_error rc = None ->
  now2 < now1 + 300 ->
  redis_lookup (redis_db (snd (get_products g now1 limit w))) now2 (cache_key limit)
    = Some (json_dumps (PList (map product_of_row rows))).
Proof.
  intros Hmiss Hrows Hne Hrc Hset Hlive.
  assert (redis_db (snd (get_products g now1 limit w))
          = redis_db (after_store_read g now1 limit (after_cache_read g now1 limit w))) as ->.
  { rewrite get_products_run, Hmiss, get_products_from_store_run.
    destruct (probe_store g limit); reflexivity. }
  rewrite (after_store_read_cached g now1 limit _ rc rows Hrows Hne Hrc Hset).
  unfold redis_lookup. rewrite lookup_insert_eq.
  rewrite decide_True by assumption. reflexivity.
Qed.

(** A call written out as the pair of its response and the world it
    leaves, and the source of that response. *)
Lemma get_products_eta (g : globals) (now limit : Z) (w : world) :
  get_products g now limit w
    = (Returned (Reference.response_of (fst (get_products g now limit w))),
       snd (get_products g now limit w)).
Proof.
  destruct (get_products_returns g now limit w) as (r & w' & -> & _). reflexivity.
Qed.

Lemma get_products_source (g : globals) (now limit : Z) (w : world) :
  source (Reference.response_of (fst (get_products g now limit w))) =
    match cache_hit g now limit w with
    | Some _ => "cache"
    | None =>
        match probe_store g limit with
        | StoreRows _ => "database"
        | _ => "mock"
        end
    end.
Proof.
  rewrite get_products_run.
  destruct (cache_hit g now limit w); [reflexivity|].
  rewrite get_products_from_store_run.
  destruct (probe_store g limit); reflexivity.
Qed.

(** ** The claims *)

(** C1.  For every limit above zero, whatever the cache and the store do
    (client or pool missing, [get], [setex], acquiring, the query or the
    release raising, the cached text not being JSON), a call of
    [get_products] does not raise: it returns a response, whose source is
    one of [cache], [database] and [mock]. *)
Theorem get_products_never_raises (g : globals) (now limit : Z) (w : world) :
  0 < limit ->
  exists r w', get_products g now limit w = (Returned r, w')
               /\ (source r = "cache" \/ source r = "database" \/ source r = "mock").
Proof. intros _. apply get_products_returns. Qed.

(** C2, as the code has it.  The handler does not look at the sign of
    [limit]: a limit of zero or below is not rejected but goes through the
    same cache, store and mock steps, and the call returns a response; when
    that response is a mock one it has no records. *)
Theorem non_positive_limit_is_processed (g : globals) (now limit : Z) (w : world) :
  limit <= 0 ->
  exists r w', get_products g now limit w = (Returned r, w')
               /\ (source r = "cache" \/ source r = "database" \/ source r = "mock")
               /\ (source r = "mock" -> products r = PList []).
Proof.
  intros Hlimit.
  destruct (get_products g now limit w) as [o w'] eqn:Hrun.
  destruct (get_products_inv _ _ _ _ _ _ Hrun)
    as [(v & _ & -> & _)|[(_ & rows & _ & -> & _)|(_ & _ & mocks & seed & -> & Hlen & _)]];
    eexists _, _; (split; [reflexivity|]); cbn; (split; [auto|]); try discriminate.
  intros _. replace (Z.to_nat (Z.min (limit + 1) 6 - 1)) with 0%nat in Hlen by lia.
  destruct mocks; [reflexivity|discriminate].
Qed.

(** C4.  For every limit above zero, a response with source [mock] holds
    exactly [min(limit, 5)] records; and it arises only when the cache did
    not answer and the store read did not go through. *)
Theorem mock_record_count (g : globals) (now limit : Z) (w : world)
    (r : response) (w' : world) :
  0 < limit ->
  get_products g now limit w = (Returned r, w') ->
  source r = "mock" ->
  (exists mocks, products r = PList mocks /\ Z.of_nat (length mocks) = Z.min limit 5)
  /\ cache_hit g now limit w = None
  /\ (forall rows, ~ store_read_succeeds g limit rows).
Proof.
  intros Hlimit Hrun Hsrc.
  destruct (get_products_inv _ _ _ _ _ _ Hrun)
    as [(v & _ & [= ->] & _)|[(_ & rows & _ & [= ->] & _)
       |(Hmiss & Hstore & mocks & seed & [= ->] & Hlen & _)]];
    try discriminate.
  split; [|split; [assumption|]].
  - exists mocks. split; [reflexivity|]. rewrite Hlen. lia.
  - intros rows Hok. apply store_read_succeeds_probe in Hok. exact (Hstore rows Hok).
Qed.

(** C3, as the code has it.  For every limit above zero, whenever the cache
    does not answer and the store read goes through (acquire, query and
    release), with any number of rows, the call returns the rows' records
    with source [database] and [cached = false], whatever becomes of the
    write-back.  The write-back is attempted exactly when there is a Redis
    client and at least one row; it is then the one write of the call,
    under the key [products:list:<limit>] with a time to live of 300. *)
Theorem store_success_response (g : globals) (now limit : Z) (w : world) (rows : list row) :
  0 < limit ->
  cache_hit g now limit w = None ->
  store_read_succeeds g limit rows ->
  exists w' evs,
    get_products g now limit w = (Returned (database_response now rows), w')
    /\ trace w' = trace w ++ evs
    /\ cache_writes evs =
         match redis_client g, rows with
         | Some _, _ :: _ =>
             [(cache_key limit, 300, json_dumps (PList (map product_of_row rows)))]
         | _, _ => []
         end.
Proof.
  intros _ Hmiss Hok. apply store_read_succeeds_probe in Hok.
  destruct (get_products g now limit w) as [o w'] eqn:Hrun.
  destruct (get_products_trace _ _ _ _ _ _ Hrun) as (evs & Htr & Hwr).
  rewrite Hmiss, Hok in Hwr.
  destruct (get_products_inv _ _ _ _ _ _ Hrun)
    as [(v & Hhit & _)|[(_ & rows' & Hp & -> & _)|(_ & Hstore & _)]].
  - congruence.
  - assert (rows' = rows) as -> by congruence.
    exists w', evs. split; [reflexivity|]. split; [assumption|].
    rewrite Hwr. unfold attempted_write_back.
    destruct (redis_client g), rows; reflexivity.
  - exfalso. exact (Hstore rows Hok).
Qed.

(** C5.  A response with source [database] holds one record for each row
    the store gave, in the store's order, with [cached = false], and in
    every record [discounted_price] is [price * 0.9], the constant being
    written into the handler. *)
Theorem database_records_discounted (g : globals) (now limit : Z) (w : world)
    (r : response) (w' : world) :
  get_products g now limit w = (Returned r, w') ->
  source r = "database" ->
  exists rows,
    store_read_succeeds g limit rows
    /\ products r = PList (map product_of_row rows)
    /\ cached r = false
    /\ Forall discount_applied (map product_of_row rows).
Proof.
  intros Hrun Hsrc.
  destruct (get_products_inv _ _ _ _ _ _ Hrun)
    as [(v & _ & [= ->] & _)|[(_ & rows & Hp & [= ->] & _)
       |(_ & _ & mocks & seed & [= ->] & _)]];
    try discriminate.
  exists rows. split; [apply store_read_succeeds_probe; assumption|].
  split; [reflexivity|]. split; [reflexivity|].
  apply Forall_fmap, Forall_forall. intros p _. apply product_of_row_discount.
Qed.

(** C6.  For every limit above zero, when the cache has a non-empty text
    under the key: if the text is JSON, the call returns its value with
    source [cache] and [cached = true]; if it is not, the failure is caught
    and the call goes on from the store read as it does after a miss: it is
    the rest of the handler run after a warning was logged, it returns, and
    its response is the response of the same call in the world without the
    key. *)
Theorem corrupt_cache_entry_is_a_miss (g : globals) (now limit : Z) (w : world)
    (rc : redis) (s : string) :
  0 < limit ->
  redis_client g = Some rc -> get_error rc = None ->
  redis_lookup (redis_db w) now (cache_key limit) = Some s -> s <> "" ->
  match json_loads s with
  | Some v =>
      get_products g now limit w
        = (Returned (cache_response now v), logged [RedisGet (cache_key limit)] w)
  | None =>
      get_products g now limit w
        = get_products_from_store g now limit
            (logged [RedisGet (cache_key limit);
                     LogWarning "Cache read failed" JSONDecodeError] w)
      /\ (exists r w', get_products g now limit w = (Returned r, w')
                       /\ (source r = "database" \/ source r = "mock"))
      /\ fst (get_products g now limit w)
           = fst (get_products g now limit (forgotten (cache_key limit) w))
  end.
Proof.
  intros _ Hrc Hget Hlook Hs.
  rewrite (found_text_run g now limit w rc s Hrc Hget Hlook Hs).
  destruct (json_loads s) as [v|]; [reflexivity|].
  split; [reflexivity|]. split.
  - rewrite get_products_from_store_run.
    destruct (probe_store g limit); eexists _, _; (split; [reflexivity|]); cbn; auto.
  - rewrite get_products_run. unfold cache_hit, after_cache_read.
    rewrite (probe_cache_absent g now limit (forgotten (cache_key limit) w) rc Hrc Hget).
    + apply from_store_response. reflexivity.
    + unfold redis_lookup, forgotten. cbn. rewrite lookup_delete_eq. reflexivity.
Qed.

(** C9, as the code has it.  For every limit above zero, in a call whose
    response has source [mock] the mock records are never written to the
    cache: a cache write of such a call carries the records of the rows
    the query gave, under the key of the limit, and is made only when the
    connection then could not be given back, which is what turned the
    response into a mock one.  When the pool is missing, or acquiring or
    the query fails, the call makes no cache write. *)
Theorem mock_records_never_cached (g : globals) (now limit : Z) (w : world)
    (r : response) (w' : world) :
  0 < limit ->
  get_products g now limit w = (Returned r, w') ->
  source r = "mock" ->
  exists evs,
    trace w' = trace w ++ evs
    /\ (forall key ttl value,
          In (key, ttl, value) (cache_writes evs) ->
          exists p rows e,
            db_pool g = Some p /\ fetch p limit = inr rows /\ release_error p = Some e
            /\ key = cache_key limit /\ ttl = 300
            /\ value = json_dumps (PList (map product_of_row rows)))
    /\ ((forall p, db_pool g = Some p -> release_error p = None) -> cache_writes evs = []).
Proof.
  intros _ Hrun Hsrc.
  destruct (get_products_trace _ _ _ _ _ _ Hrun) as (evs & Htr & Hwr).
  exists evs. split; [assumption|].
  destruct (get_products_inv _ _ _ _ _ _ Hrun)
    as [(v & _ & [= ->] & _)|[(_ & rows & _ & [= ->] & _)
       |(Hmiss & Hstore & _)]];
    try discriminate.
  rewrite Hmiss in Hwr.
  destruct (probe_store g limit) as [|e|rows e|rows] eqn:Hp.
  1,2: rewrite Hwr; split; [intros ? ? ? []|reflexivity].
  2: exfalso; exact (Hstore rows eq_refl).
  destruct (store_lost_probe _ _ _ _ Hp) as (p & Hpool & _ & Hf & Hrel).
  split.
  - intros key ttl value Hin. rewrite Hwr in Hin. unfold attempted_write_back in Hin.
    destruct (redis_client g); [destruct (map product_of_row rows) eqn:Hmap|];
      cbn in Hin; try contradiction.
    destruct Hin as [[= <- <- <-]|[]]. exists p, rows, e. rewrite Hmap. auto 10.
  - intros Hall. specialize (Hall p Hpool). congruence.
Qed.

(** C10.  The cache-hit path does not look at the shape of what it reads:
    whatever JSON value the text under the key parses to, a list of
    products or not, the call returns that value as [products], with
    source [cache] and [cached = true], having done nothing but the one
    [get]. *)
Theorem cached_json_returned_verbatim (g : globals) (now limit : Z) (w : world)
    (rc : redis) (s : string) (expiry : Z) (v : pyval) :
  redis_client g = Some rc -> get_error rc = None ->
  redis_db w !! cache_key limit = Some (s, expiry) -> now < expiry ->
  json_loads "" = None ->
  json_loads s = Some v ->
  get_products g now limit w
    = (Returned (cache_response now v), logged [RedisGet (cache_key limit)] w).
Proof.
  intros Hrc Hget Hdb Hlive Hempty Hv.
  assert (s <> "") as Hs by congruence.
  assert (redis_lookup (redis_db w) now (cache_key limit) = Some s) as Hlook.
  { unfold redis_lookup. rewrite Hdb. rewrite decide_True by assumption. reflexivity. }
  rewrite (found_text_run g now limit w rc s Hrc Hget Hlook Hs), Hv. reflexivity.
Qed.



(** When the store step of a call writes the records of the rows it got
    (the cache did not answer, the query gave at least one row, [setex]
    went through), that one write is under the key of the limit, and a
    later call with the same limit that reads the cache before the entry
    is over returns what [json.loads] makes of the text written. *)
Lemma written_then_read (g1 g2 : globals) (now1 now2 limit : Z) (w : world)
    (rc1 rc2 : redis) (rows : list row) (v : pyval) :
  cache_hit g1 now1 limit w = None ->
  store_yields g1 limit rows -> rows <> [] ->
  redis_client g1 = Some rc1 -> setex_error rc1 = None ->
  redis_client g2 = Some rc2 -> get_error rc2 = None ->
  now2 < now1 + 300 ->
  json_loads "" = None ->
  json_loads (json_dumps (PList (map product_of_row rows))) = Some v ->
  exists o1 w1 evs w2,
    get_products g1 now1 limit w = (o1, w1)
    /\ trace w1 = trace w ++ evs
    /\ cache_writes evs
         = [(cache_key limit, 300, json_dumps (PList (map product_of_row rows)))]
    /\ get_products g2 now2 limit w1 = (Returned (cache_response now2 v), w2).
Proof.
  intros Hmiss Hrows Hne Hrc1 Hset Hrc2 Hget Hlive Hnil Hround.
  pose proof (write_then_lookup g1 now1 now2 limit w rc1 rows Hmiss Hrows Hne Hrc1 Hset Hlive)
    as Hlook.
  destruct (get_products g1 now1 limit w) as [o1 w1] eqn:Hrun1. cbn [snd] in Hlook.
  destruct (get_products_trace _ _ _ _ _ _ Hrun1) as (evs & Htr & Hwr).
  rewrite Hmiss in Hwr.
  assert (cache_writes evs
          = [(cache_key limit, 300, json_dumps (PList (map product_of_row rows)))]) as Hone.
  { rewrite Hwr. apply store_yields_probe in Hrows as [->|[e ->]];
      unfold attempted_write_back; rewrite Hrc1;
      destruct rows; [congruence|reflexivity|congruence|reflexivity]. }
  assert (json_dumps (PList (map product_of_row rows)) <> "") as Hs by congruence.
  pose proof (found_text_run g2 now2 limit w1 rc2 _ Hrc2 Hget Hlook Hs) as Hrun2.
  rewrite Hround in Hrun2.
  eexists o1, w1, evs, _. repeat split; [exact Htr|exact Hone|exact Hrun2].
Qed.

(** Whenever a call returns with source [cache], its records are what
    [json.loads] makes of the text the cache holds for the key, which is
    not over. *)
Lemma cache_source_inv (g : globals) (now limit : Z) (w : world) (r : response)
    (w' : world) :
  get_products g now limit w = (Returned r, w') ->
  source r = "cache" ->
  exists s expiry,
    redis_db w !! cache_key limit = Some (s, expiry)
    /\ now < expiry
    /\ json_loads s = Some (products r).
Proof.
  intros Hrun Hsrc.
  destruct (get_products_inv _ _ _ _ _ _ Hrun)
    as [(v & Hhit & [= ->] & _)|[(_ & rows' & _ & [= ->] & _)
       |(_ & _ & mocks & seed & [= ->] & _)]];
    try discriminate.
  destruct (cache_hit_inv _ _ _ _ _ Hhit) as (s & expiry & Hdb & Hexp & _ & Hv).
  exists s, expiry. repeat split; assumption.
Qed.

End Properties.

(** * The round trip of the modelled codec *)

Section JsonRoundTrip.
Import Json.

Lemma digit_value_digit (d : Z) : 0 <= d < 10 -> digit_value (digit d) = Some d.
Proof.
  intros Hd.
  assert (d = 0 \/ d = 1 \/ d = 2 \/ d = 3 \/ d = 4 \/ d = 5 \/ d = 6 \/ d = 7 \/ d = 8 \/ d = 9)
    as H by lia.
  repeat (destruct H as [->|H]; [reflexivity|]). subst. reflexivity.
Qed.

Lemma read_digits_fixed (k : nat) (x : Z) (rest : list ascii) (acc : Z) (count : nat) :
  0 <= x < 10 ^ Z.of_nat k ->
  read_digits (digits_fixed k x ++ rest) acc count
    = read_digits rest (acc * 10 ^ Z.of_nat k + x) (count + k).
Proof.
  revert x rest. induction k as [|k IH]; intros x rest Hx.
  - cbn [digits_fixed app]. change (10 ^ Z.of_nat 0) with 1 in *.
    replace x with 0 by lia. f_equal; lia.
  - rewrite Nat2Z.inj_succ, Z.pow_succ_r in Hx by lia.
    cbn [digits_fixed]. rewrite <- app_assoc. cbn [app].
    rewrite IH by (split; [apply Z.div_pos; lia|apply Z.div_lt_upper_bound; lia]).
    cbn [read_digits]. rewrite digit_value_digit by (apply Z.mod_pos_bound; lia).
    rewrite Nat2Z.inj_succ, Z.pow_succ_r by lia.
    f_equal; [|lia].
    pose proof (Z.div_mod x 10). lia.
Qed.

Lemma width_bound (fuel : nat) (x : Z) :
  0 <= x < 2 ^ (Z.of_nat fuel + 1) -> x < 10 ^ Z.of_nat (width fuel x).
Proof.
  revert x. induction fuel as [|fuel IH]; intros x Hx.
  - cbn in *. lia.
  - cbn [width]. destruct (Z.ltb_spec x 10) as [Hlt|Hge]; [cbn; lia|].
    rewrite Nat2Z.inj_succ, Z.pow_succ_r by lia.
    assert (x / 10 < 10 ^ Z.of_nat (width fuel (x / 10))) as H.
    { apply IH. split; [apply Z.div_pos; lia|].
      apply Z.div_lt_upper_bound; [lia|].
      replace (Z.of_nat (S fuel) + 1) with (Z.succ (Z.of_nat fuel + 1)) in Hx by lia.
      rewrite Z.pow_succ_r in Hx by lia. lia. }
    pose proof (Z.div_mod x 10). pose proof (Z.mod_pos_bound x 10). lia.
Qed.

Lemma width_positive (fuel : nat) (x : Z) : exists k, width fuel x = S k.
Proof. destruct fuel; cbn; [eauto|]. destruct (x <? 10); eauto. Qed.

Lemma decimal_bound (x : Z) :
  0 <= x -> x < 10 ^ Z.of_nat (width (Z.to_nat (Z.log2 x)) x).
Proof.
  intros Hx. apply width_bound. split; [exact Hx|].
  rewrite Z2Nat.id by apply Z.log2_nonneg.
  destruct (Z.eq_dec x 0) as [->|Hne]; [cbn; lia|].
  replace (Z.log2 x + 1) with (Z.succ (Z.log2 x)) by lia.
  apply Z.log2_spec. lia.
Qed.

Lemma read_digits_stop (cs : list ascii) (acc : Z) (count : nat) :
  no_digit cs -> read_digits cs acc count = (acc, count, cs).
Proof. destruct cs as [|c cs]; [reflexivity|]. cbn. intros ->. reflexivity. Qed.

Lemma read_decimal (x : Z) (rest : list ascii) :
  0 <= x -> no_digit rest ->
  exists k, read_digits (decimal x ++ rest) 0 0 = (x, S k, rest).
Proof.
  intros Hx Hrest. unfold decimal.
  rewrite read_digits_fixed by (split; [exact Hx|apply decimal_bound; exact Hx]).
  rewrite read_digits_stop by exact Hrest.
  destruct (width_positive (Z.to_nat (Z.log2 x)) x) as [k ->].
  exists k. rewrite Z.mul_0_l, Z.add_0_l. reflexivity.
Qed.

Lemma digits_fixed_head (k : nat) (x : Z) :
  exists c t, digits_fixed (S k) x = c :: t /\ exists d, digit_value c = Some d.
Proof.
  revert x. induction k as [|k IH]; intros x.
  - exists (digit (x mod 10)), []. split; [reflexivity|].
    exists (x mod 10). apply digit_value_digit, Z.mod_pos_bound. lia.
  - destruct (IH (x / 10)) as (c & t & Heq & Hd).
    exists c, (t ++ [digit (x mod 10)]). split; [|exact Hd].
    change (digits_fixed (S (S k)) x) with (digits_fixed (S k) (x / 10) ++ [digit (x mod 10)]).
    rewrite Heq. reflexivity.
Qed.

Lemma decimal_head (x : Z) :
  exists c t, decimal x = c :: t /\ exists d, digit_value c = Some d.
Proof.
  unfold decimal. destruct (width_positive (Z.to_nat (Z.log2 x)) x) as [k ->].
  apply digits_fixed_head.
Qed.

Lemma iter_pos_nat {A : Type} (f : A -> A) (p : positive) (x : A) :
  SpecFloat.iter_pos f p x = Nat.iter (Pos.to_nat p) f x.
Proof.
  revert x. induction p as [p IH|p IH|]; intros x; cbn [SpecFloat.iter_pos].
  - rewrite !IH, Pos2Nat.inj_xI.
    replace (S (2 * Pos.to_nat p))%nat with (Pos.to_nat p + (Pos.to_nat p + 1))%nat by lia.
    rewrite !Nat.iter_add. reflexivity.
  - rewrite !IH, Pos2Nat.inj_xO.
    replace (2 * Pos.to_nat p)%nat with (Pos.to_nat p + Pos.to_nat p)%nat by lia.
    rewrite Nat.iter_add. reflexivity.
  - reflexivity.
Qed.

Lemma shr_1_even (q : positive) :
  shr_1 {| shr_m := 2 * Z.pos q; shr_r := false; shr_s := false |}
    = {| shr_m := Z.pos q; shr_r := false; shr_s := false |}.
Proof. reflexivity. Qed.

Lemma pos_times_pow2 (m : positive) (n : Z) : 0 <= n -> exists q, Z.pos m * 2 ^ n = Z.pos q.
Proof.
  intros Hn.
  assert (0 < Z.pos m * 2 ^ n) as H
    by (apply Z.mul_pos_pos; [lia|apply Z.pow_pos_nonneg; lia]).
  destruct (Z.pos m * 2 ^ n) as [|q|q]; try lia. exists q. reflexivity.
Qed.

Lemma shr_exact (n : nat) (m : positive) :
  Nat.iter n shr_1 {| shr_m := Z.pos m * 2 ^ Z.of_nat n; shr_r := false; shr_s := false |}
    = {| shr_m := Z.pos m; shr_r := false; shr_s := false |}.
Proof.
  induction n as [|n IH].
  - cbn [Nat.iter]. rewrite Z.mul_1_r. reflexivity.
  - rewrite Nat.iter_succ_r.
    destruct (pos_times_pow2 m (Z.of_nat n)) as [q Hq]; [lia|].
    replace (Z.pos m * 2 ^ Z.of_nat (S n)) with (2 * Z.pos q).
    + rewrite shr_1_even, <- Hq. exact IH.
    + rewrite <- Hq, Nat2Z.inj_succ, Z.pow_succ_r by lia. lia.
Qed.

Lemma Zdigits2_pow2 (m : positive) (n : nat) :
  Zdigits2 (Z.pos m * 2 ^ Z.of_nat n) = Z.pos (digits2_pos m) + Z.of_nat n.
Proof.
  induction n as [|n IH].
  - rewrite Z.mul_1_r. cbn. lia.
  - destruct (pos_times_pow2 m (Z.of_nat n)) as [q Hq]; [lia|].
    replace (Z.pos m * 2 ^ Z.of_nat (S n)) with (Z.pos q~0).
    + rewrite Hq in IH. cbn [Zdigits2] in *. cbn [digits2_pos]. lia.
    + rewrite Nat2Z.inj_succ, Z.pow_succ_r by lia.
      change (Z.pos q~0) with (2 * Z.pos q). rewrite <- Hq. lia.
Qed.

Lemma Zdigits2_shift (m : positive) (j : Z) :
  0 <= j -> Zdigits2 (Z.pos m * 2 ^ j) = Z.pos (digits2_pos m) + j.
Proof.
  intros Hj. rewrite <- (Z2Nat.id j) by lia. apply Zdigits2_pow2.
Qed.

Lemma round_exact (sx : bool) (m : positive) (e j : Z) :
  bounded prec emax m e = true -> 0 <= j ->
  binary_round_aux prec emax sx (Z.pos m * 2 ^ j) (e - j) loc_Exact = S754_finite sx m e.
Proof.
  intros Hb Hj. unfold bounded, canonical_mantissa in Hb.
  apply andb_prop in Hb. destruct Hb as [Hc He].
  apply Z.eqb_eq in Hc. 
  unfold binary_round_aux, shr_fexp.
  rewrite Zdigits2_shift by lia.
  replace (Z.pos (digits2_pos m) + j + (e - j)) with (Z.pos (digits2_pos m) + e) by lia.
  rewrite Hc. replace (e - (e - j)) with j by lia.
  assert (shr (shr_record_of_loc (Z.pos m * 2 ^ j) loc_Exact) (e - j) j
          = ({| shr_m := Z.pos m; shr_r := false; shr_s := false |}, e)) as ->.
  { unfold shr, shr_record_of_loc. destruct j as [|p|p]; [| |lia].
    - rewrite Z.mul_1_r. f_equal. lia.
    - rewrite iter_pos_nat. rewrite <- (positive_nat_Z p) at 1.
      rewrite shr_exact. f_equal. lia. }
  cbn [shr_m loc_of_shr_record round_nearest_even shr_r shr_s].
  cbn [Zdigits2]. rewrite Hc, Z.sub_diag. cbn [shr shr_record_of_loc shr_m].
  rewrite He. reflexivity.
Qed.

Lemma float_of_decimal_exact (negative : bool) (m : positive) (e n : Z) (k : nat) :
  bounded prec emax m e = true ->
  0 <= e + (64 + 4 * Z.of_nat k) ->
  n * 2 ^ (64 + 4 * Z.of_nat k)
    = Z.pos m * 2 ^ (e + (64 + 4 * Z.of_nat k)) * 10 ^ Z.of_nat k ->
  float_of_decimal negative n k = SF2Prim (S754_finite negative m e).
Proof.
  intros Hb Hs Hn. unfold float_of_decimal. rewrite Hn.
  assert (10 ^ Z.of_nat k <> 0) as Hd by (apply Z.pow_nonzero; lia).
  rewrite Z.div_mul, Z.mod_mul by exact Hd. cbn [Z.eqb].
  replace (- (64 + 4 * Z.of_nat k)) with (e - (e + (64 + 4 * Z.of_nat k))) by lia.
  rewrite round_exact by assumption. reflexivity.
Qed.

Lemma closes_no_digit (cs : list ascii) : closes cs -> no_digit cs.
Proof. destruct cs as [|c cs]; [auto|]. intros [->|[->| ->]]; reflexivity. Qed.

Lemma read_whole (negative : bool) (x : Z) (rest : list ascii) :
  0 <= x -> closes rest ->
  read_number negative (decimal x ++ rest)
    = Some (PInt (if negative then - x else x), rest).
Proof.
  intros Hx Hrest. unfold read_number.
  destruct (read_decimal x rest Hx (closes_no_digit _ Hrest)) as [k ->].
  destruct rest as [|c rest]; [reflexivity|].
  destruct Hrest as [->|[->| ->]]; reflexivity.
Qed.

Lemma read_fraction (negative : bool) (whole fraction : Z) (k : nat) (rest : list ascii) :
  0 <= whole -> 0 <= fraction < 10 ^ Z.of_nat (S k) -> closes rest ->
  read_number negative (decimal whole ++ "."%char :: digits_fixed (S k) fraction ++ rest)
    = Some (PFloat (float_of_decimal negative
                      (whole * 10 ^ Z.of_nat (S k) + fraction) (S k)), rest).
Proof.
  intros Hw Hf Hrest. unfold read_number.
  destruct (read_decimal whole ("."%char :: digits_fixed (S k) fraction ++ rest) Hw)
    as [j ->]; [reflexivity|].
  change (Ascii.eqb "." ".") with true. cbv iota.
  rewrite read_digits_fixed by exact Hf.
  rewrite read_digits_stop by (apply closes_no_digit, Hrest).
  destruct rest as [|c rest]; [reflexivity|].
  destruct Hrest as [->|[->| ->]]; reflexivity.
Qed.

Lemma read_finite (s : bool) (m : positive) (e : Z) (rest : list ascii) :
  bounded prec emax m e = true -> closes rest ->
  read_number s
    ((if 0 <=? e then decimal (Z.pos m * 2 ^ e) ++ chars ".0"
      else decimal (Z.pos m * 5 ^ (- e) / 10 ^ (- e))
             ++ "."%char :: digits_fixed (Z.to_nat (- e))
                                         ((Z.pos m * 5 ^ (- e)) mod 10 ^ (- e)))
       ++ rest)
    = Some (PFloat (SF2Prim (S754_finite s m e)), rest).
Proof.
  intros Hb Hrest. destruct (Z.leb_spec 0 e) as [He|He].
  - rewrite <- app_assoc.
    change (chars ".0" ++ rest) with ("."%char :: digits_fixed 1 0 ++ rest).
    rewrite read_fraction;
      [|apply Z.mul_nonneg_nonneg; [lia|apply Z.pow_nonneg; lia]|cbn; lia|exact Hrest].
    f_equal. f_equal. f_equal. apply float_of_decimal_exact; [exact Hb|lia|].
    change (Z.of_nat 1) with 1. change (64 + 4 * 1) with 68.
    rewrite Z.pow_add_r by lia. ring.
  - rewrite <- app_assoc. cbn [app].
    assert (exists k, Z.to_nat (- e) = S k) as [k Hk] by (exists (Z.to_nat (- e) - 1)%nat; lia).
    assert (Z.of_nat (S k) = - e) as HK by lia.
    rewrite Hk.
    assert (0 < 10 ^ (- e)) as Hpos by (apply Z.pow_pos_nonneg; lia).
    assert (0 <= Z.pos m * 5 ^ (- e)) as Hnn
      by (apply Z.mul_nonneg_nonneg; [lia|apply Z.pow_nonneg; lia]).
    rewrite read_fraction;
      [|apply Z.div_pos; lia|rewrite HK; apply Z.mod_pos_bound; lia|exact Hrest].
    f_equal. f_equal. f_equal. rewrite HK.
    replace (Z.pos m * 5 ^ (- e) / 10 ^ (- e) * 10 ^ (- e)
             + (Z.pos m * 5 ^ (- e)) mod 10 ^ (- e))
      with (Z.pos m * 5 ^ (- e))
      by (pose proof (Z.div_mod (Z.pos m * 5 ^ (- e)) (10 ^ (- e))); lia).
    apply float_of_decimal_exact; [exact Hb|lia|].
    rewrite HK.
    replace (64 + 4 * - e) with ((e + (64 + 4 * - e)) + (- e)) at 1 by lia.
    rewrite Z.pow_add_r by lia.
    change 10 with (2 * 5). rewrite Z.pow_mul_l. ring.
Qed.


Lemma read_string_char (c : ascii) (cs : list ascii) :
  read_string (escape_char c ++ cs) = prepend c (read_string cs).
Proof. destruct c as [[] [] [] [] [] [] [] []]; reflexivity. Qed.

Lemma read_string_escape (s : string) (rest : list ascii) :
  read_string (escape s ++ quote :: rest) = Some (s, rest).
Proof.
  induction s as [|c s IH]; [reflexivity|].
  cbn [escape]. rewrite <- app_assoc, read_string_char, IH. reflexivity.
Qed.

Lemma value_body_space el mem (cs : list ascii) :
  value_body el mem (" "%char :: cs) = value_body el mem cs.
Proof. reflexivity. Qed.

Lemma value_body_digit el mem (c : ascii) (t : list ascii) :
  (exists d, digit_value c = Some d) ->
  value_body el mem (c :: t) = read_number false (c :: t).
Proof.
  intros [d H].
  destruct c as [[] [] [] [] [] [] [] []]; cbv in H; try discriminate H; reflexivity.
Qed.

Lemma value_body_minus el mem (c : ascii) (t : list ascii) :
  (exists d, digit_value c = Some d) ->
  value_body el mem ("-"%char :: c :: t) = read_number true (c :: t).
Proof.
  intros [d H].
  destruct c as [[] [] [] [] [] [] [] []]; cbv in H; try discriminate H; reflexivity.
Qed.

(** Reading a number: what [value_body] does on a text that starts with a
    sign or none, and then a digit. *)
Lemma value_body_number el mem (s : bool) (text rest : list ascii) :
  (exists c t, text = c :: t /\ exists d, digit_value c = Some d) ->
  value_body el mem ((if s then ["-"%char] else []) ++ text ++ rest)
    = read_number s (text ++ rest).
Proof.
  intros (c & t & -> & Hd). destruct s; cbn [app].
  - apply value_body_minus, Hd.
  - apply value_body_digit, Hd.
Qed.

Lemma read_float el mem (f : float) (rest : list ascii) :
  closes rest -> value_body el mem (write_float f ++ rest) = Some (PFloat f, rest).
Proof.
  intros Hrest. rewrite <- (SF2Prim_Prim2SF f) at 2.
  pose proof (Prim2SF_valid f) as Hvalid.
  unfold write_float. destruct (Prim2SF f) as [s|s| |s m e].
  - assert (exists c t, decimal 0 ++ "."%char :: digits_fixed 1 0 = c :: t
                        /\ exists d, digit_value c = Some d) as Hhead.
    { exists "0"%char, (chars ".0"). split; [reflexivity|]. exists 0. reflexivity. }
    pose proof (value_body_number el mem s _ rest Hhead) as H.
    rewrite <- app_assoc in H.
    replace (value_body el mem ((if s then chars "-0.0" else chars "0.0") ++ rest))
      with (read_number s (decimal 0 ++ ("."%char :: digits_fixed 1 0) ++ rest))
      by (rewrite <- H; destruct s; reflexivity).
    cbn [app]. rewrite read_fraction; [|lia|cbn; lia|exact Hrest].
    destruct s; reflexivity.
  - destruct s; reflexivity.
  - reflexivity.
  - cbn in Hvalid. rewrite <- app_assoc.
    rewrite value_body_number.
    + apply read_finite; [exact Hvalid|exact Hrest].
    + destruct (0 <=? e).
      * destruct (decimal_head (Z.pos m * 2 ^ e)) as (c & t & -> & Hd).
        exists c, (t ++ chars ".0"). split; [reflexivity|exact Hd].
      * destruct (decimal_head (Z.pos m * 5 ^ (- e) / 10 ^ (- e))) as (c & t & -> & Hd).
        eexists c, _. split; [reflexivity|exact Hd].
Qed.

Lemma read_scalar el mem (v : pyval) (rest : list ascii) :
  scalar v -> closes rest -> value_body el mem (write v ++ rest) = Some (v, rest).
Proof.
  intros Hv Hrest. destruct v as [|b|z|f|s|l|d]; try contradiction.
  - reflexivity.
  - destruct b; reflexivity.
  - cbn [write]. unfold write_int. destruct (Z.ltb_spec z 0) as [Hneg|Hpos].
    + change (value_body el mem (("-"%char :: decimal (- z)) ++ rest))
        with (value_body el mem (["-"%char] ++ decimal (- z) ++ rest)).
      rewrite (value_body_number el mem true (decimal (- z)) rest (decimal_head _)).
      rewrite read_whole by (lia || exact Hrest). rewrite Z.opp_involutive. reflexivity.
    + change (value_body el mem (decimal z ++ rest))
        with (value_body el mem ([] ++ decimal z ++ rest)).
      rewrite (value_body_number el mem false (decimal z) rest (decimal_head _)).
      rewrite read_whole by (lia || exact Hrest). reflexivity.
  - apply read_float, Hrest.
  - cbn [write]. unfold write_string. cbn [app]. rewrite <- app_assoc. cbn [app].
    change (value_body el mem (quote :: escape s ++ quote :: rest))
      with (match read_string (escape s ++ quote :: rest) with
            | Some (s, r') => Some (PStr s, r')
            | None => None
            end).
    rewrite read_string_escape. reflexivity.
Qed.


Lemma write_dict (d : list (string * pyval)) :
  write (PDict d) = "{"%char :: join (map write_member d) ++ ["}"%char].
Proof. reflexivity. Qed.

Lemma join_cons (text : list ascii) (texts : list (list ascii)) (tail : list ascii) :
  join (text :: texts) ++ tail
    = text ++ match texts with
              | [] => tail
              | _ :: _ => ","%char :: " "%char :: join texts ++ tail
              end.
Proof.
  destruct texts as [|text' texts]; [reflexivity|].
  cbn [join]. rewrite <- app_assoc. reflexivity.
Qed.

Lemma read_value_space (fuel : nat) (cs : list ascii) :
  read_value fuel (" "%char :: cs) = read_value fuel cs.
Proof. destruct fuel; reflexivity. Qed.

Lemma read_members_space (fuel : nat) (cs : list ascii) :
  read_members fuel (" "%char :: cs) = read_members fuel cs.
Proof. destruct fuel; reflexivity. Qed.

Lemma members_body_member value members (k : string) (v : pyval) (tail : list ascii) :
  value (" "%char :: write v ++ tail) = Some (v, tail) ->
  members_body value members (write_member (k, v) ++ tail)
    = match skip_ws tail with
      | c :: r =>
          if Ascii.eqb c "," then
            match members r with
            | Some (d, r') => Some ((k, v) :: d, r')
            | None => None
            end
          else if Ascii.eqb c "}" then Some ([(k, v)], r)
          else None
      | [] => None
      end.
Proof.
  intros Hvalue. unfold write_member, write_string. cbn [fst snd app].
  rewrite <- !app_assoc. cbn [app].
  change (members_body value members
            (quote :: escape k ++ quote :: ":"%char :: " "%char :: write v ++ tail))
    with (match read_string (escape k ++ quote :: ":"%char :: " "%char :: write v ++ tail) with
          | None => None
          | Some (k, r1) =>
              match skip_ws r1 with
              | c1 :: r2 =>
                  if Ascii.eqb c1 ":" then
                    match value r2 with
                    | None => None
                    | Some (v, r3) =>
                        match skip_ws r3 with
                        | c3 :: r' =>
                            if Ascii.eqb c3 "," then
                              match members r' with
                              | Some (d, r'') => Some ((k, v) :: d, r'')
                              | None => None
                              end
                            else if Ascii.eqb c3 "}" then Some ([(k, v)], r')
                            else None
                        | [] => None
                        end
                    end
                  else None
              | [] => None
              end
          end).
  rewrite read_string_escape. cbn [skip_ws is_space Ascii.eqb Bool.eqb orb].
  rewrite Hvalue. reflexivity.
Qed.

Lemma members_body_more value members (k : string) (v : pyval) (r : list ascii) :
  value (" "%char :: write v ++ ","%char :: r) = Some (v, ","%char :: r) ->
  members_body value members (write_member (k, v) ++ ","%char :: r)
    = match members r with
      | Some (d, r') => Some ((k, v) :: d, r')
      | None => None
      end.
Proof. intros Hvalue. rewrite members_body_member by exact Hvalue. reflexivity. Qed.

Lemma read_members_ok (d : list (string * pyval)) :
  Forall (fun kv => scalar (snd kv)) d -> d <> [] ->
  forall (fuel : nat) (rest : list ascii),
    (length d < fuel)%nat ->
    read_members fuel (join (map write_member d) ++ "}"%char :: rest) = Some (d, rest).
Proof.
  induction 1 as [|[k v] d Hv Hd IH]; [congruence|]. intros _ fuel rest Hfuel.
  cbn [length] in Hfuel.
  destruct fuel as [|[|fuel]]; [lia|lia|].
  cbn [map]. rewrite join_cons.
  change (read_members (S (S fuel)) ?cs)
    with (members_body (read_value (S fuel)) (read_members (S fuel)) cs).
  destruct d as [|kv d].
  - cbn [map]. rewrite members_body_member; [reflexivity|].
    rewrite read_value_space. apply read_scalar; [exact Hv|]. cbn. auto.
  - cbn [map]. rewrite members_body_more.
    + change (write_member kv :: map write_member d) with (map write_member (kv :: d)).
      rewrite read_members_space, IH by (congruence || cbn [length] in *; lia).
      reflexivity.
    + rewrite read_value_space. apply read_scalar; [exact Hv|]. cbn. auto.
Qed.

Lemma members_head (d : list (string * pyval)) :
  d <> [] ->
  exists text, forall tail, join (map write_member d) ++ tail = quote :: text ++ tail.
Proof.
  destruct d as [|[k v] d]; [congruence|]. intros _.
  exists (escape k ++ quote :: ":"%char :: " "%char :: write v
          ++ match map write_member d with
             | [] => []
             | _ :: _ => ","%char :: " "%char :: join (map write_member d)
             end).
  intros tail. cbn [map]. rewrite join_cons.
  destruct (map write_member d) as [|member texts];
    unfold write_member, write_string; cbn [fst snd app];
    repeat (rewrite <- app_assoc; cbn [app]); reflexivity.
Qed.

Lemma read_record (bound fuel : nat) (v : pyval) (rest : list ascii) :
  flat_record bound v -> (bound + 1 < fuel)%nat ->
  read_value fuel (write v ++ rest) = Some (v, rest).
Proof.
  intros (d & -> & Hne & Hlen & Hd) Hfuel.
  destruct fuel as [|fuel]; [lia|].
  rewrite write_dict. cbn [app]. rewrite <- app_assoc. cbn [app].
  pose proof (read_members_ok d Hd Hne fuel rest ltac:(lia)) as Hmembers.
  destruct (members_head d Hne) as [text Htext].
  rewrite Htext in *.
  change (read_value (S fuel) ("{"%char :: quote :: ?x))
    with (match read_members fuel (quote :: x) with
          | Some (d, r'') => Some (PDict d, r'')
          | None => None
          end).
  rewrite Hmembers. reflexivity.
Qed.

Lemma read_elements_space (fuel : nat) (cs : list ascii) :
  read_elements fuel (" "%char :: cs) = read_elements fuel cs.
Proof.
  destruct fuel as [|fuel]; [reflexivity|].
  change (read_elements (S fuel) ?x)
    with (elements_body (read_value fuel) (read_elements fuel) x).
  unfold elements_body. rewrite read_value_space. reflexivity.
Qed.

Lemma elements_body_more value elements (v : pyval) (r cs : list ascii) :
  value cs = Some (v, ","%char :: r) ->
  elements_body value elements cs
    = match elements r with
      | Some (l, r') => Some (v :: l, r')
      | None => None
      end.
Proof. unfold elements_body. intros ->. reflexivity. Qed.

Lemma read_elements_ok (bound : nat) (l : list pyval) :
  Forall (flat_record bound) l -> l <> [] ->
  forall (fuel : nat) (rest : list ascii),
    (length l + bound + 1 < fuel)%nat ->
    read_elements fuel (join (map write l) ++ "]"%char :: rest) = Some (l, rest).
Proof.
  induction 1 as [|v l Hv Hl IH]; [congruence|]. intros _ fuel rest Hfuel.
  cbn [length] in Hfuel. destruct fuel as [|fuel]; [lia|].
  cbn [map]. rewrite join_cons.
  change (read_elements (S fuel) ?cs)
    with (elements_body (read_value fuel) (read_elements fuel) cs).
  destruct l as [|v' l].
  - unfold elements_body. rewrite (read_record bound fuel v _ Hv) by lia. reflexivity.
  - cbn [map].
    rewrite (elements_body_more _ _ v (" "%char :: join (write v' :: map write l)
                                         ++ "]"%char :: rest))
      by (apply (read_record bound); [exact Hv|lia]).
    change (write v' :: map write l) with (map write (v' :: l)).
    rewrite read_elements_space, IH by (congruence || cbn [length] in *; lia).
    reflexivity.
Qed.

Lemma record_head (bound : nat) (v : pyval) :
  flat_record bound v -> exists text, write v = "{"%char :: quote :: text ++ ["}"%char].
Proof.
  intros (d & -> & Hne & _). rewrite write_dict.
  destruct (members_head d Hne) as [text ->]. eauto.
Qed.

Lemma length_join (bound : nat) (l : list pyval) :
  Forall (flat_record bound) l -> (3 * length l <= length (join (map write l)))%nat.
Proof.
  induction 1 as [|v l Hv Hl IH]; [cbn; lia|].
  destruct (record_head bound v Hv) as [text Htext].
  cbn [map]. rewrite <- (app_nil_r (join _)), join_cons, length_app, Htext.
  cbn [length]. rewrite length_app. cbn [length].
  destruct l as [|v' l]; cbn [length map] in *; [lia|].
  rewrite app_nil_r. lia.
Qed.

Lemma read_list (bound fuel : nat) (l : list pyval) (rest : list ascii) :
  Forall (flat_record bound) l -> (length l + bound + 1 < fuel)%nat ->
  read_value (S fuel) (write (PList l) ++ rest) = Some (PList l, rest).
Proof.
  intros Hl Hfuel. destruct l as [|v l]; [reflexivity|].
  pose proof (read_elements_ok bound (v :: l) Hl ltac:(congruence) fuel rest Hfuel)
    as Helements.
  change (write (PList (v :: l)) ++ rest)
    with ("["%char :: (join (map write (v :: l)) ++ ["]"%char]) ++ rest).
  rewrite <- app_assoc. cbn [app].
  assert (exists text, join (map write (v :: l)) ++ "]"%char :: rest = "{"%char :: text)
    as [text Htext].
  { inversion Hl as [|? ? Hv _]. subst.
    destruct (record_head bound v Hv) as [text Htext].
    cbn [map]. rewrite join_cons, Htext. cbn [app]. eauto. }
  rewrite Htext in *.
  change (read_value (S fuel) ("["%char :: "{"%char :: text))
    with (match read_elements fuel ("{"%char :: text) with
          | Some (l, r'') => Some (PList l, r'')
          | None => None
          end).
  rewrite Helements. reflexivity.
Qed.

(** What the writer makes of a list of flat records, the reader takes
    back to the same list. *)
Lemma loads_dumps_records (l : list pyval) :
  Forall (flat_record 6) l -> loads (dumps (PList l)) = Some (PList l).
Proof.
  intros Hl. unfold loads, dumps, chars.
  rewrite list_ascii_of_string_of_list_ascii.
  destruct l as [|v l]; [reflexivity|].
  rewrite <- (app_nil_r (write (PList (v :: l)))) at 2.
  rewrite (read_list 6); [reflexivity|exact Hl|].
  pose proof (length_join 6 _ Hl) as Hlength.
  change (write (PList (v :: l)))
    with ("["%char :: join (map write (v :: l)) ++ ["]"%char]).
  cbn [length] in *. rewrite length_app. cbn [length]. lia.
Qed.


Lemma product_is_flat `{RT : Runtime} (p : row) : flat_record 6 (product_of_row p).
Proof.
  unfold product_of_row. eexists. split; [reflexivity|]. split; [discriminate|].
  split; [cbn; lia|].
  repeat constructor; cbn;
    destruct (row_price p) as [d|]; try destruct (numeric_bool d); exact I.
Qed.

End JsonRoundTrip.

(** * The cache round trip

    The two claims on what comes back from the cache, on any runtime whose
    JSON codec is the modelled one. *)

Section CacheRoundTrip.
Variable base : Runtime.

#[local] Abbreviation modelled := (with_json base).

(** The codec takes the list of records the store step writes back to
    itself. *)
Lemma loads_dumps_products (rows : list (@row modelled)) :
  Json.loads (Json.dumps (PList (map product_of_row rows)))
    = Some (PList (map product_of_row rows)).
Proof.
  apply loads_dumps_records. apply Forall_map, Forall_forall.
  intros p _. apply product_is_flat.
Qed.


(** C8.  Round trip through the cache.  When the store step of a call
    writes the records of the rows it got (the cache did not answer, the
    query gave at least one row, [setex] went through), that one write is
    under the key of the limit, and a later call with the same limit that
    reads the cache before the entry is over returns exactly those records,
    record for record and field for field, with source [cache].  And
    whenever a call returns with source [cache], its records are what the
    reader makes of the text the cache holds for the key: when that text is
    what the store step wrote for some rows, they are the records of those
    rows. *)
Theorem cache_round_trip (g1 g2 : @globals modelled) (now1 now2 limit : Z)
    (w : @world modelled) (rc1 rc2 : redis) (rows : list (@row modelled)) :
  cache_hit g1 now1 limit w = None ->
  store_yields g1 limit rows -> rows <> [] ->
  redis_client g1 = Some rc1 -> setex_error rc1 = None ->
  redis_client g2 = Some rc2 -> get_error rc2 = None ->
  now2 < now1 + 300 ->
  (exists o1 w1 evs w2,
     get_products g1 now1 limit w = (o1, w1)
     /\ trace w1 = trace w ++ evs
     /\ cache_writes evs
          = [(cache_key limit, 300, Json.dumps (PList (map product_of_row rows)))]
     /\ get_products g2 now2 limit w1
          = (Returned (cache_response (RT := modelled) now2
                         (PList (map product_of_row rows))), w2))
  /\ (forall (g : @globals modelled) (now : Z) (w0 : @world modelled) (r : response)
             (w' : @world modelled),
        get_products g now limit w0 = (Returned r, w') ->
        source r = "cache" ->
        exists s expiry,
          redis_db w0 !! cache_key limit = Some (s, expiry)
          /\ now < expiry
          /\ Json.loads s = Some (products r)
          /\ forall written : list (@row modelled),
               s = Json.dumps (PList (map product_of_row written)) ->
               products r = PList (map product_of_row written)).
Proof.
  intros Hmiss Hrows Hne Hrc1 Hset Hrc2 Hget Hlive. split.
  - exact (written_then_read g1 g2 now1 now2 limit w rc1 rc2 rows _
             Hmiss Hrows Hne Hrc1 Hset Hrc2 Hget Hlive eq_refl
             (loads_dumps_products rows)).
  - intros g now w0 r w' Hrun Hsrc.
    destruct (cache_source_inv g now limit w0 r w' Hrun Hsrc)
      as (s & expiry & Hdb & Hexp & Hv).
    exists s, expiry. repeat split; try assumption.
    intros written ->.
    change (Json.loads (Json.dumps (PList (map product_of_row written)))
            = Some (products r)) in Hv.
    rewrite loads_dumps_products in Hv. congruence.
Qed.

End CacheRoundTrip.

(** * The claims on the reference runtime

    Each theorem with a premise is applied once to a concrete request, and
    each claim the code does not meet is run on a request that shows it. *)

Section Runs.
Import Reference.

#[local] Existing Instance runtime.

(** C1 on a request: limit 10, everything healthy, cache empty. *)
Lemma get_products_never_raises_witness :
  0 < 10
  /\ exists r w', get_products healthy 1000 10 empty_world = (Returned r, w')
                  /\ (source r = "cache" \/ source r = "database" \/ source r = "mock").
Proof.
  split; [lia|]. apply (get_products_never_raises healthy 1000 10 empty_world). lia.
Defined.

(** C2 as stated fails: with limit 0 and neither cache nor store, the
    request is not rejected; the call returns an empty mock response. *)
Lemma non_positive_limit_not_rejected :
  0 <= 0
  /\ get_products nothing_connected 1000 0 empty_world
       = (Returned {| products := PList []; source := "mock"; cached := false;
                      timestamp := "1000" |},
          empty_world)
  /\ ~ (exists e w', get_products nothing_connected 1000 0 empty_world = (Raised e, w')).
Proof.
  split; [lia|]. split; [reflexivity|].
  intros (e & w' & H). apply (f_equal fst) in H. vm_compute in H. discriminate H.
Qed.

(** C2, as the code has it, on limit -3 with everything healthy. *)
Lemma non_positive_limit_is_processed_witness :
  -3 <= 0
  /\ exists r w', get_products healthy 1000 (-3) empty_world = (Returned r, w')
                  /\ (source r = "cache" \/ source r = "database" \/ source r = "mock")
                  /\ (source r = "mock" -> products r = PList []).
Proof.
  split; [lia|]. apply (non_positive_limit_is_processed healthy 1000 (-3) empty_world). lia.
Defined.

(** C3 as stated fails: limit 10, cache empty and reachable, the store
    read goes through with zero rows.  The response has source [database],
    and no [setex] is among the collaborator calls. *)
Lemma store_success_without_write_back :
  0 < 10
  /\ store_read_succeeds empty_table 10 []
  /\ exists w',
       get_products empty_table 1000 10 empty_world
         = (Returned {| products := PList []; source := "database"; cached := false;
                        timestamp := "1000" |}, w')
       /\ trace w' = [RedisGet "products:list:10"; PoolAcquire; ConnFetch 10; PoolRelease]
       /\ cache_writes (trace w') = [].
Proof.
  split; [lia|]. split.
  - exists (pool_of []). repeat split.
  - eexists. split; [reflexivity|]. split; reflexivity.
Qed.

(** C3, as the code has it, on limit 10 with three rows. *)
Lemma store_success_response_witness :
  exists w' evs,
    get_products healthy 1000 10 empty_world
      = (Returned (database_response 1000 three_rows), w')
    /\ trace w' = trace empty_world ++ evs
    /\ cache_writes evs
         = [(cache_key 10, 300, json_dumps (PList (map product_of_row three_rows)))].
Proof.
  apply (store_success_response healthy 1000 10 empty_world three_rows).
  - lia.
  - reflexivity.
  - exists (pool_of three_rows). repeat split.
Defined.

(** C4 on the scenario of the specification: limit 20, no store. *)
Lemma mock_record_count_witness :
  let run := get_products no_database 1000 20 empty_world in
  (exists mocks, products (response_of (fst run)) = PList mocks
                 /\ Z.of_nat (length mocks) = 5)
  /\ cache_hit no_database 1000 20 empty_world = None
  /\ (forall rows, ~ store_read_succeeds no_database 20 rows).
Proof.
  apply (mock_record_count no_database 1000 20 empty_world
           (response_of (fst (get_products no_database 1000 20 empty_world)))
           (snd (get_products no_database 1000 20 empty_world))).
  - lia.
  - apply get_products_eta.
  - rewrite get_products_source. reflexivity.
Defined.

(** C5 on the scenario of the specification: limit 10, cache empty, the
    store gives three rows. *)
Lemma database_records_discounted_witness :
  let run := get_products healthy 1000 10 empty_world in
  exists rows,
    store_read_succeeds healthy 10 rows
    /\ products (response_of (fst run)) = PList (map product_of_row rows)
    /\ cached (response_of (fst run)) = false
    /\ Forall discount_applied (map product_of_row rows).
Proof.
  apply (database_records_discounted healthy 1000 10 empty_world
           (response_of (fst (get_products healthy 1000 10 empty_world)))
           (snd (get_products healthy 1000 10 empty_world))).
  - reflexivity.
  - reflexivity.
Defined.

(** C6 on a cache whose entry for limit 10 is not JSON. *)
Lemma corrupt_cache_entry_is_a_miss_witness :
  let w := world_with 10 "{not json" 2000 in
  get_products healthy 1000 10 w
    = get_products_from_store healthy 1000 10
        (logged [RedisGet (cache_key 10);
                 LogWarning "Cache read failed" JSONDecodeError] w)
  /\ (exists r w', get_products healthy 1000 10 w = (Returned r, w')
                   /\ (source r = "database" \/ source r = "mock"))
  /\ fst (get_products healthy 1000 10 w)
       = fst (get_products healthy 1000 10 (forgotten (cache_key 10) w)).
Proof.
  apply (corrupt_cache_entry_is_a_miss healthy 1000 10 (world_with 10 "{not json" 2000)
           healthy_redis "{not json").
  - lia.
  - reflexivity.
  - reflexivity.
  - reflexivity.
  - discriminate.
Defined.



(** C8 on a first call that writes three records and then fails to give
    its connection back, and a second call without a store, 299 seconds
    later. *)
Lemma cache_round_trip_witness :
  (exists o1 w1 evs w2,
     get_products Modelled.release_fails 1000 10 Modelled.empty_world = (o1, w1)
     /\ trace w1 = trace Modelled.empty_world ++ evs
     /\ cache_writes evs
          = [(cache_key 10, 300, Json.dumps (PList (map product_of_row Modelled.three_rows)))]
     /\ get_products Modelled.no_database 1299 10 w1
          = (Returned (cache_response (RT := Modelled.runtime) 1299
                         (PList (map product_of_row Modelled.three_rows))), w2))
  /\ (forall (g : @globals Modelled.runtime) (now : Z) (w0 : @world Modelled.runtime)
             (r : response) (w' : @world Modelled.runtime),
        get_products g now 10 w0 = (Returned r, w') ->
        source r = "cache" ->
        exists s expiry,
          redis_db w0 !! cache_key 10 = Some (s, expiry)
          /\ now < expiry
          /\ Json.loads s = Some (products r)
          /\ forall written : list (@row Modelled.runtime),
               s = Json.dumps (PList (map product_of_row written)) ->
               products r = PList (map product_of_row written)).
Proof.
  apply (cache_round_trip Reference.runtime Modelled.release_fails Modelled.no_database
           1000 1299 10 Modelled.empty_world healthy_redis healthy_redis
           Modelled.three_rows).
  - reflexivity.
  - eexists. repeat split.
  - discriminate.
  - reflexivity.
  - reflexivity.
  - reflexivity.
  - reflexivity.
  - lia.
Defined.

(** C9 as stated fails: limit 10, cache empty and reachable, the query
    gives three rows, which are written to the cache, and the connection
    then cannot be given back.  The response has source [mock], and the
    call has made a cache write. *)
Lemma mock_response_after_cache_write :
  0 < 10
  /\ exists r w',
       get_products release_fails 1000 10 empty_world = (Returned r, w')
       /\ source r = "mock"
       /\ cache_writes (trace w')
            = [(cache_key 10, 300, json_dumps (PList (map product_of_row three_rows)))]
       /\ cache_writes (trace w') <> [].
Proof.
  split; [lia|].
  exists (response_of (fst (get_products release_fails 1000 10 empty_world))),
         (snd (get_products release_fails 1000 10 empty_world)).
  split; [apply get_products_eta|].
  split; [rewrite get_products_source; reflexivity|].
  destruct (get_products_trace release_fails 1000 10 empty_world _ _
              (get_products_eta release_fails 1000 10 empty_world)) as (evs & Htr & Hwr).
  rewrite Htr. change (trace empty_world ++ evs) with evs. rewrite Hwr.
  split; [reflexivity|discriminate].
Qed.

(** C9, as the code has it, on the same request. *)
Lemma mock_records_never_cached_witness :
  let run := get_products release_fails 1000 10 empty_world in
  exists evs,
    trace (snd run) = trace empty_world ++ evs
    /\ (forall key ttl value,
          In (key, ttl, value) (cache_writes evs) ->
          exists p rows e,
            db_pool release_fails = Some p /\ fetch p 10 = inr rows
            /\ release_error p = Some e
            /\ key = cache_key 10 /\ ttl = 300
            /\ value = json_dumps (PList (map product_of_row rows)))
    /\ ((forall p, db_pool release_fails = Some p -> release_error p = None) ->
        cache_writes evs = []).
Proof.
  apply (mock_records_never_cached release_fails 1000 10 empty_world
           (response_of (fst (get_products release_fails 1000 10 empty_world)))).
  - lia.
  - apply get_products_eta.
  - rewrite get_products_source. reflexivity.
Defined.

(** C10 on a cache that holds a number, and on one that holds an object. *)
Lemma cached_json_returned_verbatim_witness :
  get_products healthy 1000 10 (world_with 10 "42" 2000)
    = (Returned (cache_response 1000 (PInt 42)),
       logged [RedisGet (cache_key 10)] (world_with 10 "42" 2000))
  /\ get_products no_database 1000 7 (world_with 7 "{}" 1001)
       = (Returned (cache_response 1000 (PDict [])),
          logged [RedisGet (cache_key 7)] (world_with 7 "{}" 1001)).
Proof.
  split.
  - apply (cached_json_returned_verbatim healthy 1000 10 (world_with 10 "42" 2000)
             healthy_redis "42" 2000 (PInt 42)).
    + reflexivity.
    + reflexivity.
    + reflexivity.
    + lia.
    + reflexivity.
    + reflexivity.
  - apply (cached_json_returned_verbatim no_database 1000 7 (world_with 7 "{}" 1001)
             healthy_redis "{}" 1001 (PDict [])).
    + reflexivity.
    + reflexivity.
    + reflexivity.
    + lia.
    + reflexivity.
    + reflexivity.
Defined.

End Runs.

(** * Further properties of [get_products] *)

Section MoreProperties.
Context `{RT : Runtime}.

Lemma cache_key_inj (a b : Z) : cache_key a = cache_key b -> a = b.
Proof.
  unfold cache_key, str_int. intros H.
  apply (inj (String.app "products:list:")) in H.
  exact (inj pretty _ _ H).
Qed.

Lemma after_write_back_db (g : globals) (now limit : Z) (pl : list pyval) (w : world)
    (k : string) :
  k <> cache_key limit ->
  redis_db (after_write_back g now limit pl w) !! k = redis_db w !! k.
Proof.
  intros Hk. unfold after_write_back.
  destruct (redis_client g) as [rc|]; [|reflexivity].
  destruct pl; [reflexivity|].
  destruct (setex_error rc); [reflexivity|].
  cbn. rewrite lookup_insert_ne by congruence. reflexivity.
Qed.

Lemma after_store_read_db (g : globals) (now limit : Z) (w : world) (k : string) :
  k <> cache_key limit ->
  redis_db (after_store_read g now limit w) !! k = redis_db w !! k.
Proof.
  intros Hk. unfold after_store_read.
  destruct (db_pool g) as [p|]; [|reflexivity].
  destruct (acquire_error p); [reflexivity|].
  destruct (fetch p limit) as [e|rows]; [reflexivity|].
  destruct (release_error p); cbn; rewrite after_write_back_db by assumption; reflexivity.
Qed.

Lemma get_products_db (g : globals) (now limit : Z) (w : world) :
  redis_db (snd (get_products g now limit w))
    = match cache_hit g now limit w with
      | Some _ => redis_db w
      | None => redis_db (after_store_read g now limit (after_cache_read g now limit w))
      end.
Proof.
  rewrite get_products_run.
  destruct (cache_hit g now limit w).
  - apply after_cache_read_db.
  - rewrite get_products_from_store_run. destruct (probe_store g limit); reflexivity.
Qed.

(** X1.  In every response of [get_products], [cached] is true exactly
    when the source is [cache], and the timestamp is the text of the clock
    reading of the call. *)
Theorem cached_flag_tells_the_source (g : globals) (now limit : Z) (w : world)
    (r : response) (w' : world) :
  get_products g now limit w = (Returned r, w') ->
  (cached r = true <-> source r = "cache") /\ timestamp r = isoformat now.
Proof.
  intros Hrun.
  destruct (get_products_inv _ _ _ _ _ _ Hrun)
    as [(v & _ & [= ->] & _)|[(_ & rows & _ & [= ->] & _)
       |(_ & _ & mocks & seed & [= ->] & _)]];
    cbn; (split; [split; intros; (reflexivity || discriminate)|reflexivity]).
Qed.

(** X2.  A call that answers from the cache does nothing but the one [get]:
    the store is not asked, the generator is not advanced, and the cache is
    left as it was. *)
Theorem cache_answer_touches_nothing_else (g : globals) (now limit : Z) (w : world)
    (r : response) (w' : world) :
  get_products g now limit w = (Returned r, w') ->
  source r = "cache" ->
  w' = logged [RedisGet (cache_key limit)] w.
Proof.
  intros Hrun Hsrc.
  destruct (get_products_inv _ _ _ _ _ _ Hrun)
    as [(v & Hhit & [= ->] & ->)|[(_ & rows & _ & [= ->] & _)
       |(_ & _ & mocks & seed & [= ->] & _)]];
    try discriminate.
  unfold cache_hit in Hhit. unfold after_cache_read.
  destruct (probe_cache g now limit w); try discriminate. reflexivity.
Qed.

Lemma other_keys_kept (g : globals) (now limit : Z) (w : world) (k : string) :
  k <> cache_key limit ->
  redis_db (snd (get_products g now limit w)) !! k = redis_db w !! k.
Proof.
  intros Hk. rewrite get_products_db.
  destruct (cache_hit g now limit w); [reflexivity|].
  rewrite after_store_read_db by assumption.
  destruct (after_cache_read_db g now limit w) as [-> _]. reflexivity.
Qed.

(** X3.  A call writes no key of the cache but the one of its own limit:
    every other key holds after the call what it held before. *)
Theorem only_the_key_of_the_limit_is_written (g : globals) (now limit : Z) (w : world)
    (k : string) :
  k <> cache_key limit ->
  redis_db (snd (get_products g now limit w)) !! k = redis_db w !! k.
Proof. apply other_keys_kept. Qed.

(** X4.  Requests for different limits do not interfere: their keys
    differ, so what the cache read for one limit finds is not changed by a
    call for another limit. *)
Theorem limits_do_not_interfere (g g' : globals) (now now' limit limit' : Z) (w : world) :
  limit <> limit' ->
  cache_hit g' now' limit' (snd (get_products g now limit w)) = cache_hit g' now' limit' w.
Proof.
  intros Hne. unfold cache_hit, probe_cache, redis_lookup.
  rewrite other_keys_kept; [reflexivity|].
  intros H. apply cache_key_inj in H. congruence.
Qed.

(** X9.  A cache that does not answer is as good as none: whenever the
    cache read gives no value (no entry, an entry that is over, an error of
    [get], a text that is not JSON), the response is the one of the same
    call without a Redis client. *)
Theorem silent_cache_is_no_cache (g : globals) (now limit : Z) (w : world) :
  cache_hit g now limit w = None ->
  fst (get_products g now limit w)
    = fst (get_products {| redis_client := None; db_pool := db_pool g |} now limit w).
Proof.
  intros Hmiss. rewrite !get_products_run, Hmiss.
  unfold cache_hit at 1. unfold probe_cache at 1. cbn [redis_client].
  rewrite !get_products_from_store_run.
  assert (probe_store {| redis_client := None; db_pool := db_pool g |} limit
          = probe_store g limit) as -> by reflexivity.
  destruct (after_cache_read_db g now limit w) as [_ Hseed].
  destruct (after_cache_read_db {| redis_client := None; db_pool := db_pool g |} now limit w)
    as [_ Hseed'].
  destruct (probe_store g limit); cbn; rewrite ?Hseed, ?Hseed'; reflexivity.
Qed.

(** X10.  A write-back that fails is logged and nothing else: the call
    returns the database response, the cache is left as it was, and the
    warning is in the log. *)
Theorem failed_write_back_is_only_logged (g : globals) (now limit : Z) (w : world)
    (rc : redis) (e : exn) (rows : list row) :
  cache_hit g now limit w = None ->
  store_read_succeeds g limit rows -> rows <> [] ->
  redis_client g = Some rc -> setex_error rc = Some e ->
  exists w',
    get_products g now limit w = (Returned (database_response now rows), w')
    /\ redis_db w' = redis_db w
    /\ In (LogWarning "Cache write failed" e) (trace w').
Proof.
  intros Hmiss Hok Hne Hrc Hset.
  pose proof Hok as (p & Hp & Ha & Hf & Hr).
  apply store_read_succeeds_probe in Hok.
  rewrite get_products_run, Hmiss, get_products_from_store_run, Hok.
  eexists. split; [reflexivity|].
  unfold after_store_read, after_write_back. rewrite Hp, Ha, Hf, Hr, Hrc.
  destruct rows as [|x rows]; [congruence|]. cbn [map]. rewrite Hset. cbn.
  split; [apply after_cache_read_db|].
  rewrite !in_app_iff. cbn. auto 10.
Qed.

Lemma draw_mocks_lookup (xs : list Z) (seed : rng) (k : nat) (d : pyval) :
  fst (draw_mocks xs seed) !! k = Some d ->
  exists i stock price discounted,
    xs !! k = Some i /\ d = mock_dict i stock price discounted.
Proof.
  revert seed k. induction xs as [|x xs IH]; intros seed k; [discriminate|].
  cbn [draw_mocks]. unfold draw_mock at 1.
  destruct (random_randint 0 100 seed) as [stock seed1].
  destruct (random_uniform 10 1000 seed1) as [price seed2].
  destruct (random_uniform 9 900 seed2) as [discounted seed3].
  specialize (IH seed3). destruct (draw_mocks xs seed3) as [ys seed4]. cbn in *.
  destruct k as [|k]; cbn.
  - intros [= <-]. exists x, stock, price, discounted. split; reflexivity.
  - apply IH.
Qed.

Lemma mock_response_inv (g : globals) (now limit : Z) (w : world) (r : response) (w' : world) :
  get_products g now limit w = (Returned r, w') ->
  source r = "mock" ->
  exists seed,
    products r = PList (fst (draw_mocks (py_range 1 (Z.min (limit + 1) 6)) seed)).
Proof.
  rewrite get_products_run.
  destruct (cache_hit g now limit w); [intros [= <- _]; discriminate|].
  rewrite get_products_from_store_run.
  destruct (probe_store g limit); intros [= <- _]; try discriminate; eauto.
Qed.

(** X6.  Without a Redis client a call makes no cache call at all, neither
    [get] nor [setex], and leaves the cache as it was. *)
Theorem no_client_no_cache_traffic (g : globals) (now limit : Z) (w : world) :
  redis_client g = None ->
  exists evs,
    trace (snd (get_products g now limit w)) = trace w ++ evs
    /\ forallb (fun ev => negb (cache_call ev)) evs = true
    /\ redis_db (snd (get_products g now limit w)) = redis_db w.
Proof.
  intros Hrc.
  assert (cache_hit g now limit w = None) as Hmiss
    by (unfold cache_hit, probe_cache; rewrite Hrc; reflexivity).
  assert (after_cache_read g now limit w = w) as Hw1
    by (unfold after_cache_read, probe_cache; rewrite Hrc; reflexivity).
  rewrite get_products_run, Hmiss, Hw1, get_products_from_store_run.
  assert (exists evs, after_store_read g now limit w = logged evs w
                      /\ forallb (fun ev => negb (cache_call ev)) evs = true)
    as (evs & Hw2 & Hevs).
  { unfold after_store_read, after_write_back. rewrite Hrc.
    destruct (db_pool g) as [p|].
    2: { exists []. split; [|reflexivity]. unfold logged. rewrite app_nil_r.
         destruct w; reflexivity. }
    destruct (acquire_error p); [eexists; split; reflexivity|].
    destruct (fetch p limit); [eexists; split; reflexivity|].
    destruct (release_error p); rewrite !logged_logged; eexists; split; reflexivity. }
  exists evs. destruct (probe_store g limit); cbn; rewrite Hw2; auto.
Qed.

(** X7.  The mock records are numbered from one, in order: the record at
    position [k] has the id [mock-(k+1)], the SKU [MOCK-] followed by [k+1]
    padded to three digits, and the name [Mock Product (k+1)]. *)
Theorem mock_records_are_numbered (g : globals) (now limit : Z) (w : world)
    (r : response) (w' : world) (mocks : list pyval) (k : nat) (d : pyval) :
  get_products g now limit w = (Returned r, w') ->
  source r = "mock" ->
  products r = PList mocks ->
  mocks !! k = Some d ->
  exists fields,
    d = PDict fields
    /\ dict_get "id" fields = Some (PStr ("mock-" +:+ str_int (Z.of_nat k + 1)))
    /\ dict_get "sku" fields = Some (PStr ("MOCK-" +:+ format_03d (Z.of_nat k + 1)))
    /\ dict_get "name" fields = Some (PStr ("Mock Product " +:+ str_int (Z.of_nat k + 1))).
Proof.
  intros Hrun Hsrc Hprod Hk.
  destruct (mock_response_inv _ _ _ _ _ _ Hrun Hsrc) as (seed & Hmocks).
  rewrite Hprod in Hmocks. injection Hmocks as ->.
  destruct (draw_mocks_lookup _ _ _ _ Hk) as (i & stock & price & discounted & Hi & ->).
  unfold py_range in Hi. apply lookup_seqZ in Hi as [-> _].
  replace (1 + Z.of_nat k) with (Z.of_nat k + 1) by lia.
  eexists. split; [reflexivity|]. repeat split.
Qed.

(** X8.  The records of a response that does not come from the cache, rows
    of the store or mocks alike, all have the same six keys in the same
    order. *)
Theorem records_have_the_six_keys (g : globals) (now limit : Z) (w : world)
    (r : response) (w' : world) :
  get_products g now limit w = (Returned r, w') ->
  source r <> "cache" ->
  exists records,
    products r = PList records
    /\ Forall (fun d => record_keys d = Some product_keys) records.
Proof.
  intros Hrun Hsrc.
  destruct (get_products_inv _ _ _ _ _ _ Hrun)
    as [(v & _ & [= ->] & _)|[(_ & rows & _ & [= ->] & _)
       |(_ & _ & mocks & seed & Hr & _)]].
  - contradiction Hsrc. reflexivity.
  - eexists. split; [reflexivity|]. apply Forall_fmap, Forall_forall. intros p _. reflexivity.
  - injection Hr as ->.
    destruct (mock_response_inv _ _ _ _ _ _ Hrun eq_refl) as (seed' & Hmocks).
    eexists. split; [exact Hmocks|].
    apply Forall_lookup. intros k d Hk.
    destruct (draw_mocks_lookup _ _ _ _ Hk) as (i & stock & price & discounted & _ & ->).
    reflexivity.
Qed.

End MoreProperties.

(** * Properties of the other endpoints *)

Section EndpointProperties.
Context `{RT : Runtime}.
Variable exn_message : exn -> string.
Variable timestamp_repr : Z -> string.
Variable validate_data : pyval -> exn + list (string * pyval).
Variable getenv : string -> option string.
Variable order_stamp : Z -> string.

(** X11.  [test_database] raises nothing but an [HTTPException], with
    status 503 exactly when there is no pool and 500 otherwise; when it
    answers, a connection was acquired and given back and the version query
    went through, the status is [connected], and [product_count] is the
    length of [sample_products]. *)
Theorem test_database_answers (g : globals) (version : exn + string) (now : Z) :
  match test_database exn_message g version now with
  | Responds report =>
      exists p v,
        db_pool g = Some p /\ acquire_error p = None /\ version = inr v
        /\ release_error p = None
        /\ field "status" report = Some (PStr "connected")
        /\ field "sample_products" report = Some (PList (sample_products p))
        /\ field "product_count" report
             = Some (PInt (Z.of_nat (length (sample_products p))))
  | Fails (HTTPException status_code _) =>
      (status_code = 503 /\ db_pool g = None)
      \/ (status_code = 500 /\ db_pool g <> None)
  | Fails _ => False
  end.
Proof.
  unfold test_database, test_database_block.
  destruct (db_pool g) as [p|]; [|left; auto].
  destruct (acquire_error p) eqn:Ha; [right; split; [reflexivity|discriminate]|].
  destruct version as [e|v], (release_error p) eqn:Hr;
    try (right; split; [reflexivity|discriminate]).
  exists p, v. repeat split; assumption.
Qed.

(** X12.  A failure of the products query does not fail [test_database]:
    with the pool and the version query in order it still answers
    [connected], with no sample products and a count of zero. *)
Theorem products_query_failure_is_tolerated (g : globals) (p : pool) (v : string)
    (e : exn) (now : Z) :
  db_pool g = Some p -> acquire_error p = None -> release_error p = None ->
  fetch p 5 = inl e ->
  exists report,
    test_database exn_message g (inr v) now = Responds report
    /\ field "status" report = Some (PStr "connected")
    /\ field "sample_products" report = Some (PList [])
    /\ field "product_count" report = Some (PInt 0).
Proof.
  intros Hp Ha Hr Hf. unfold test_database, test_database_block, sample_products.
  rewrite Hp, Ha, Hr, Hf. eexists. repeat split.
Qed.

(** X13.  The sample record [test_database] builds for a row is the record
    [get_products] builds for it without the discounted price: the two
    agree on every other key. *)
Theorem sample_is_the_products_record (p : row) (k : string) :
  k <> "discounted_price" ->
  field k (sample_of_row p) = field k (product_of_row p).
Proof.
  intros Hk. unfold field, sample_of_row, product_of_row. cbn [dict_get].
  repeat (destruct (String.eqb k _) eqn:?; [reflexivity|]).
  apply String.eqb_neq in Hk. rewrite Hk. reflexivity.
Qed.

Lemma test_key_not_products (now limit : Z) : test_key timestamp_repr now <> cache_key limit.
Proof. unfold test_key, cache_key. discriminate. Qed.

(** X14.  [test_redis] reads back what it wrote: with a client whose calls
    go through, and the server reaching [GET] and [TTL] within the 60
    seconds that follow its [SETEX], the call answers with the key built at
    line 232 and the value built at line 233, whatever the clock gave at
    each of the two lines, with a time to live that is what is left of the
    60 seconds, hence above 0 and at most 60, and with the timestamp read
    at line 247; the key stays in the cache until 60 seconds after the
    [SETEX]. *)
Theorem test_redis_round_trip (g : globals) (rc : redis) (t : test_redis_times)
    (db : gmap string (string * Z)) :
  redis_client g = Some rc -> setex_error rc = None -> get_error rc = None ->
  setex_time t <= get_time t -> get_time t <= ttl_time t -> ttl_time t < setex_time t + 60 ->
  test_redis exn_message timestamp_repr g None t db
    = (Responds {| key := test_key timestamp_repr (key_time t);
                   value := test_value (value_time t);
                   ttl := setex_time t + 60 - ttl_time t;
                   operation := "SET/GET";
                   cache_timestamp := isoformat (response_time t) |},
       <[test_key timestamp_repr (key_time t)
           := (test_value (value_time t), setex_time t + 60)]> db)
  /\ 0 < setex_time t + 60 - ttl_time t <= 60.
Proof.
  intros Hrc Hset Hget Hle1 Hle2 Hlt. split; [|lia].
  unfold test_redis, test_redis_block. rewrite Hrc, Hset, Hget.
  unfold redis_lookup, redis_ttl. rewrite lookup_insert_eq.
  rewrite !decide_True by lia. reflexivity.
Qed.

(** X15.  [test_redis] never touches what [get_products] reads: whatever
    the client does, the cache answers for the key of any limit after the
    call as it did before. *)
Theorem test_redis_keeps_products_cache (g : globals) (ttl_error : option exn)
    (t : test_redis_times) (now' limit : Z) (db : gmap string (string * Z)) :
  redis_lookup (snd (test_redis exn_message timestamp_repr g ttl_error t db))
               now' (cache_key limit)
    = redis_lookup db now' (cache_key limit).
Proof.
  unfold redis_lookup, test_redis, test_redis_block.
  pose proof (test_key_not_products (key_time t) limit) as Hk.
  destruct (redis_client g) as [rc|]; [|reflexivity].
  destruct (setex_error rc); [reflexivity|].
  destruct (get_error rc), ttl_error; cbn [snd];
    rewrite lookup_insert_ne by assumption; reflexivity.
Qed.

(** X16.  [test_redis] raises nothing but an [HTTPException]: 503 exactly
    when there is no client, the cache then being untouched, and 500 when
    [setex], [get] or [ttl] raises; when [setex] went through the key stays
    written also when the call fails afterwards. *)
Theorem test_redis_failures (g : globals) (ttl_error : option exn) (t : test_redis_times)
    (db : gmap string (string * Z)) :
  match test_redis exn_message timestamp_repr g ttl_error t db with
  | (Responds _, db') =>
      exists rc, redis_client g = Some rc
                 /\ setex_error rc = None /\ get_error rc = None /\ ttl_error = None
  | (Fails (HTTPException status_code _), db') =>
      (status_code = 503 /\ redis_client g = None /\ db' = db)
      \/ (status_code = 500
          /\ exists rc, redis_client g = Some rc
               /\ match setex_error rc with
                  | Some _ => db' = db
                  | None =>
                      db' = <[test_key timestamp_repr (key_time t)
                                := (test_value (value_time t), setex_time t + 60)]> db
                      /\ (get_error rc <> None \/ ttl_error <> None)
                  end)
  | (Fails _, _) => False
  end.
Proof.
  unfold test_redis, test_redis_block.
  destruct (redis_client g) as [rc|]; [|left; auto].
  destruct (setex_error rc) eqn:Hset.
  { right. split; [reflexivity|]. exists rc. rewrite Hset. auto. }
  destruct (get_error rc) eqn:Hget.
  { right. split; [reflexivity|]. exists rc. rewrite Hset.
    split; [reflexivity|]. split; [reflexivity|]. left. congruence. }
  destruct ttl_error.
  { right. split; [reflexivity|]. exists rc. rewrite Hset.
    split; [reflexivity|]. split; [reflexivity|]. right. congruence. }
  exists rc. auto.
Qed.

#[local] Abbreviation http_call := (test_http_call exn_message validate_data getenv).

Lemma assoc_service_urls (service : string) :
  assoc service (service_urls getenv) = None
  <-> service <> "inventory" /\ service <> "pricing" /\ service <> "external".
Proof.
  unfold service_urls. cbn [assoc].
  destruct (String.eqb service "inventory") eqn:H1;
    [apply String.eqb_eq in H1|apply String.eqb_neq in H1].
  { split; [discriminate|]. intros (? & _). contradiction. }
  destruct (String.eqb service "pricing") eqn:H2;
    [apply String.eqb_eq in H2|apply String.eqb_neq in H2].
  { split; [discriminate|]. intros (_ & ? & _). contradiction. }
  destruct (String.eqb service "external") eqn:H3;
    [apply String.eqb_eq in H3|apply String.eqb_neq in H3].
  { split; [discriminate|]. intros (_ & _ & ?). contradiction. }
  split; auto.
Qed.

(** X17.  A service that is not [inventory], [pricing] or [external] is
    refused without any HTTP call being made: with status 400 when there is
    an HTTP client, and with 503 when there is none, the client being
    checked first. *)
Theorem unknown_service_is_refused (http_client : option http) (service : string)
    (mocked_at answered_at : Z) :
  service <> "inventory" -> service <> "pricing" -> service <> "external" ->
  fst (http_call http_client service mocked_at answered_at) = []
  /\ exists detail,
       snd (http_call http_client service mocked_at answered_at)
         = Fails (HTTPException (match http_client with None => 503 | Some _ => 400 end)
                                detail).
Proof.
  intros H1 H2 H3. unfold test_http_call.
  destruct http_client as [c|]; [|split; [reflexivity|eexists; reflexivity]].
  replace (assoc service (service_urls getenv)) with (@None string)
    by (symmetry; apply assoc_service_urls; auto).
  split; [reflexivity|eexists; reflexivity].
Qed.

(** X18.  For [inventory] and [pricing], [test_http_call] asks the
    service's [/health] once and never fails because of the transport: any
    exception of the call or of reading its JSON gives the mocked answer
    with status [mocked], whose data carry the clock reading of line 299
    while the response carries the later one of line 312; it fails, with
    500, only when the JSON that came back is refused by the response
    model.  (That the response model takes a dictionary is what its
    validation brings.) *)
Theorem internal_service_never_fails_on_transport (c : http) (service url : string)
    (mocked_at answered_at : Z) :
  (forall d, validate_data (PDict d) = inr d) ->
  service = "inventory" \/ service = "pricing" ->
  assoc service (service_urls getenv) = Some url ->
  fst (http_call (Some c) service mocked_at answered_at) = [url +:+ "/health"]
  /\ match get_json c (url +:+ "/health") (Some 5%float) with
     | inl _ =>
         exists d,
           mocked_data service mocked_at = PDict d
           /\ snd (http_call (Some c) service mocked_at answered_at)
                = Responds {| call_source := "api-gateway"; target := service;
                              status := "mocked"; data := d;
                              call_timestamp := isoformat answered_at |}
     | inr v =>
         match validate_data v with
         | inr d =>
             snd (http_call (Some c) service mocked_at answered_at)
               = Responds {| call_source := "api-gateway"; target := service;
                             status := "success"; data := d;
                             call_timestamp := isoformat answered_at |}
         | inl e =>
             snd (http_call (Some c) service mocked_at answered_at)
               = Fails (HTTPException 500 ("Service call failed: " +:+ exn_message e))
         end
     end.
Proof.
  intros Hdict Hservice Hurl. unfold test_http_call, test_http_call_block. rewrite Hurl.
  assert (String.eqb service "inventory" || String.eqb service "pricing" = true) as ->.
  { destruct Hservice as [-> | ->]; reflexivity. }
  destruct (get_json c (url +:+ "/health") (Some 5%float)) as [e|v].
  - unfold mocked_data. rewrite Hdict. split; [reflexivity|]. eexists. split; reflexivity.
  - destruct (validate_data v); split; reflexivity.
Qed.

(** X19.  For [external] there is no fallback: a failure of the call is
    answered with status 500 and the message of the exception. *)
Theorem external_failure_is_an_error (c : http) (e : exn) (mocked_at answered_at : Z) :
  get_json c "https://httpbin.org/json" None = inl e ->
  http_call (Some c) "external" mocked_at answered_at
    = (["https://httpbin.org/json"],
       Fails (HTTPException 500 ("Service call failed: " +:+ exn_message e))).
Proof.
  intros Hget. unfold test_http_call, test_http_call_block. cbn. rewrite Hget. reflexivity.
Qed.

Lemma run_steps_spec (steps : list (string * float)) (slept : list float)
    (done : list pyval) :
  run_steps steps slept done
    = (slept ++ map snd steps,
       done ++ map (fun s => step_record (fst s) (snd s)) steps).
Proof.
  revert slept done. induction steps as [|[step_name delay] steps IH]; intros slept done.
  - cbn. rewrite !app_nil_r. reflexivity.
  - cbn [run_steps]. rewrite IH. cbn. rewrite <- !app_assoc. reflexivity.
Qed.

(** X20.  [create_order] confirms every order, whatever the product
    identifier and the quantity, which it copies into the order unchecked:
    it sleeps through the five steps in order, records each as completed
    with the whole milliseconds of its delay (100, 50, 150, 200, 50), and
    reports as total the sum of the recorded durations, 550. *)
Theorem order_is_confirmed_in_550_ms (product_id : string)
    (quantity created_at confirmed_at : Z) :
  let '(slept, order) :=
    create_order order_stamp product_id quantity created_at confirmed_at in
  slept = map snd order_steps
  /\ field "product_id" order = Some (PStr product_id)
  /\ field "quantity" order = Some (PInt quantity)
  /\ field "status" order = Some (PStr "confirmed")
  /\ exists steps,
       field "steps" order = Some (PList steps)
       /\ map (field "name") steps = map (fun s => Some (PStr (fst s))) order_steps
       /\ Forall (fun s => field "status" s = Some (PStr "completed")) steps
       /\ map duration_ms steps = [100; 50; 150; 200; 50]
       /\ field "total_duration_ms" order = Some (PInt (py_sum (map duration_ms steps)))
       /\ py_sum (map duration_ms steps) = 550.
Proof.
  unfold create_order. rewrite run_steps_spec. cbn [app].
  split; [reflexivity|]. split; [reflexivity|]. split; [reflexivity|].
  split; [reflexivity|].
  eexists. split; [reflexivity|]. split; [reflexivity|].
  split; [repeat constructor|]. split; [vm_compute; reflexivity|].
  split; [reflexivity|]. vm_compute. reflexivity.
Qed.

End EndpointProperties.

(** X21.  When [test_error] raises an [HTTPException], its status code is
    the number the error type spells, and nothing was slept. *)
Theorem error_status_is_the_type (error_type : string) (slept status_code : Z)
    (detail : string) :
  test_error error_type = (slept, Fails (HTTPException status_code detail)) ->
  error_type = str_int status_code /\ slept = 0.
Proof.
  unfold test_error.
  destruct (String.eqb error_type "400") eqn:H400.
  { apply String.eqb_eq in H400. intros [= <- <- _]. subst. split; reflexivity. }
  destruct (String.eqb error_type "404") eqn:H404.
  { apply String.eqb_eq in H404. intros [= <- <- _]. subst. split; reflexivity. }
  destruct (String.eqb error_type "500") eqn:H500.
  { apply String.eqb_eq in H500. intros [= <- <- _]. subst. split; reflexivity. }
  destruct (String.eqb error_type "timeout"); [discriminate|].
  destruct (String.eqb error_type "exception"); discriminate.
Qed.

(** X22.  The types [test_error] lists as available in its fallback answer
    are exactly the types it handles: an error type is in the list if and
    only if the call does not end in the fallback answer. *)
Theorem available_types_are_the_handled_ones (error_type : string) :
  In error_type available_error_types
  <-> test_error error_type <> (0, Responds unknown_error_type).
Proof.
  split.
  - intros [<-|[<-|[<-|[<-|[<-|[]]]]]]; discriminate.
  - unfold test_error, available_error_types.
    destruct (String.eqb error_type "400") eqn:H400.
    { apply String.eqb_eq in H400. subst. intros _. cbn. auto. }
    destruct (String.eqb error_type "404") eqn:H404.
    { apply String.eqb_eq in H404. subst. intros _. cbn. auto. }
    destruct (String.eqb error_type "500") eqn:H500.
    { apply String.eqb_eq in H500. subst. intros _. cbn. auto. }
    destruct (String.eqb error_type "timeout") eqn:Htimeout.
    { apply String.eqb_eq in Htimeout. subst. intros _. cbn. auto 10. }
    destruct (String.eqb error_type "exception") eqn:Hexception.
    { apply String.eqb_eq in Hexception. subst. intros _. cbn. auto 10. }
    intros H. contradiction H. reflexivity.
Qed.

(** * The further properties on the reference runtime *)

Section FurtherRuns.
Import Reference Examples.

#[local] Existing Instance runtime.

Lemma cached_flag_tells_the_source_witness :
  let r := response_of (fst (get_products healthy 1000 10 empty_world)) in
  (cached r = true <-> source r = "cache") /\ timestamp r = isoformat 1000.
Proof.
  apply (cached_flag_tells_the_source healthy 1000 10 empty_world _
           (snd (get_products healthy 1000 10 empty_world))).
  apply get_products_eta.
Defined.

Lemma cache_answer_touches_nothing_else_witness :
  snd (get_products no_database 1000 10 (world_with 10 "[]" 2000))
    = logged [RedisGet (cache_key 10)] (world_with 10 "[]" 2000).
Proof.
  apply (cache_answer_touches_nothing_else no_database 1000 10 (world_with 10 "[]" 2000)
           (response_of (fst (get_products no_database 1000 10 (world_with 10 "[]" 2000))))).
  - apply get_products_eta.
  - rewrite get_products_source. reflexivity.
Defined.

Lemma only_the_key_of_the_limit_is_written_witness :
  redis_db (snd (get_products healthy 1000 10 (world_with 20 "[]" 2000))) !! cache_key 20
    = redis_db (world_with 20 "[]" 2000) !! cache_key 20.
Proof.
  apply (only_the_key_of_the_limit_is_written healthy 1000 10 (world_with 20 "[]" 2000)
           (cache_key 20)).
  intros H. vm_compute in H. discriminate H.
Defined.

Lemma limits_do_not_interfere_witness :
  cache_hit no_database 1001 20 (snd (get_products healthy 1000 10 empty_world))
    = cache_hit no_database 1001 20 empty_world.
Proof.
  apply (limits_do_not_interfere healthy no_database 1000 1001 10 20 empty_world). lia.
Defined.

Lemma no_client_no_cache_traffic_witness :
  exists evs,
    trace (snd (get_products no_table 1000 10 empty_world)) = trace empty_world ++ evs
    /\ forallb (fun ev => negb (cache_call ev)) evs = true
    /\ redis_db (snd (get_products no_table 1000 10 empty_world)) = redis_db empty_world.
Proof.
  apply (no_client_no_cache_traffic no_table 1000 10 empty_world). reflexivity.
Defined.

Lemma records_have_the_six_keys_witness :
  exists records,
    products (response_of (fst (get_products healthy 1000 10 empty_world))) = PList records
    /\ Forall (fun d => record_keys d = Some product_keys) records.
Proof.
  apply (records_have_the_six_keys healthy 1000 10 empty_world _
           (snd (get_products healthy 1000 10 empty_world))).
  - apply get_products_eta.
  - rewrite get_products_source. discriminate.
Defined.

Lemma silent_cache_is_no_cache_witness :
  fst (get_products healthy 1000 10 (world_with 10 "{oops" 2000))
    = fst (get_products {| redis_client := None; db_pool := db_pool healthy |} 1000 10
             (world_with 10 "{oops" 2000)).
Proof.
  apply (silent_cache_is_no_cache healthy 1000 10 (world_with 10 "{oops" 2000)).
  reflexivity.
Defined.

Lemma failed_write_back_is_only_logged_witness :
  exists w',
    get_products write_fails 1000 10 empty_world
      = (Returned (database_response 1000 three_rows), w')
    /\ redis_db w' = redis_db empty_world
    /\ In (LogWarning "Cache write failed" RedisError) (trace w').
Proof.
  apply (failed_write_back_is_only_logged write_fails 1000 10 empty_world
           {| get_error := None; setex_error := Some RedisError |} RedisError three_rows).
  - reflexivity.
  - exists (pool_of three_rows). repeat split.
  - discriminate.
  - reflexivity.
  - reflexivity.
Defined.

End FurtherRuns.

(** * The properties of the other endpoints on examples *)

Section EndpointRuns.
Import Reference Examples.

#[local] Existing Instance runtime.

Lemma mock_records_are_numbered_witness :
  let r := response_of (fst (get_products no_database 1000 20 empty_world)) in
  let mocks := match products r with PList l => l | _ => [] end in
  exists fields,
    default PNone (mocks !! 2%nat) = PDict fields
    /\ dict_get "id" fields = Some (PStr "mock-3")
    /\ dict_get "sku" fields = Some (PStr "MOCK-003")
    /\ dict_get "name" fields = Some (PStr "Mock Product 3").
Proof.
  apply (mock_records_are_numbered no_database 1000 20 empty_world
           (response_of (fst (get_products no_database 1000 20 empty_world)))
           (snd (get_products no_database 1000 20 empty_world))
           (match products (response_of (fst (get_products no_database 1000 20 empty_world)))
            with PList l => l | _ => [] end)
           2%nat).
  - apply get_products_eta.
  - rewrite get_products_source. reflexivity.
  - vm_compute. reflexivity.
  - vm_compute. reflexivity.
Defined.

Lemma products_query_failure_is_tolerated_witness :
  exists report,
    test_database exn_message no_table (inr "PostgreSQL 16.1") 1000 = Responds report
    /\ field "status" report = Some (PStr "connected")
    /\ field "sample_products" report = Some (PList [])
    /\ field "product_count" report = Some (PInt 0).
Proof.
  apply (products_query_failure_is_tolerated exn_message no_table
           (@Build_pool runtime None (fun _ => inl PostgresError) None)
           "PostgreSQL 16.1" PostgresError 1000); reflexivity.
Defined.

Lemma sample_is_the_products_record_witness :
  field "price" (sample_of_row (@Build_row runtime 1 "SKU-001" "Widget" 7 (Some 10)))
    = field "price" (product_of_row (@Build_row runtime 1 "SKU-001" "Widget" 7 (Some 10))).
Proof.
  apply (sample_is_the_products_record
           (@Build_row runtime 1 "SKU-001" "Widget" 7 (Some 10)) "price").
  discriminate.
Defined.

Lemma test_redis_round_trip_witness :
  test_redis exn_message timestamp_repr healthy None one_second_later ∅
    = (Responds {| key := test_key timestamp_repr 1000;
                   value := test_value 1001;
                   ttl := 1002 + 60 - 1003;
                   operation := "SET/GET";
                   cache_timestamp := isoformat 1004 |},
       <[test_key timestamp_repr 1000 := (test_value 1001, 1002 + 60)]> ∅)
  /\ 0 < 1002 + 60 - 1003 <= 60.
Proof.
  apply (test_redis_round_trip exn_message timestamp_repr healthy healthy_redis
           one_second_later ∅); cbn; (reflexivity || lia).
Defined.

Lemma unknown_service_is_refused_witness :
  fst (test_http_call exn_message validate_data getenv (Some unreachable) "billing"
         1000 1001) = []
  /\ exists detail,
       snd (test_http_call exn_message validate_data getenv (Some unreachable) "billing"
              1000 1001)
         = Fails (HTTPException 400 detail).
Proof.
  apply (unknown_service_is_refused exn_message validate_data getenv (Some unreachable)
           "billing" 1000 1001); discriminate.
Defined.

Lemma internal_service_never_fails_on_transport_witness :
  fst (test_http_call exn_message validate_data getenv (Some unreachable) "pricing"
         1005 1006)
    = ["http://pricing-service:8002/health"]
  /\ exists d,
       mocked_data "pricing" 1005 = PDict d
       /\ snd (test_http_call exn_message validate_data getenv (Some unreachable)
                 "pricing" 1005 1006)
            = Responds {| call_source := "api-gateway"; target := "pricing";
                          status := "mocked"; data := d;
                          call_timestamp := isoformat 1006 |}.
Proof.
  apply (internal_service_never_fails_on_transport exn_message validate_data getenv
           unreachable "pricing" "http://pricing-service:8002" 1005 1006).
  - intros d. reflexivity.
  - right. reflexivity.
  - reflexivity.
Defined.

Lemma external_failure_is_an_error_witness :
  test_http_call exn_message validate_data getenv (Some unreachable) "external" 1000 1001
    = (["https://httpbin.org/json"],
       Fails (HTTPException 500 "Service call failed: connection is closed")).
Proof.
  apply (external_failure_is_an_error exn_message validate_data getenv unreachable
           InterfaceError 1000 1001).
  reflexivity.
Defined.

Lemma error_status_is_the_type_witness :
  "404" = str_int 404 /\ 0 = 0.
Proof.
  apply (error_status_is_the_type "404" 0 404 "Resource not found for testing").
  reflexivity.
Defined.

End EndpointRuns.
